(** * AnimateMyWorld: the capture -> analyze -> generate pipeline

    A shallow embedding of [src/services/geminiService.ts] (the two remote
    adapters [analyzeImage] and [generateAnimation]) and of the controller
    part of [src/App.tsx] ([processImage], [reset] and the wiring of these
    handlers in the rendered view), with the properties the specification
    states about them. *)

From Stdlib Require Import ZArith Lia Ascii String.
From stdpp Require Import base tactics option list strings gmap.

Local Open Scope string_scope.
Local Open Scope list_scope.
#[local] Set Warnings "-register-all".

(** ** JavaScript data *)

(** Values produced by [JSON.parse].  A number is kept as its JSON lexeme:
    nothing in the program computes with one. *)
Inductive JSValue : Type :=
| JNull
| JBool (b : bool)
| JNumber (lexeme : string)
| JString (s : string)
| JArray (items : list JSValue)
| JObject (fields : list (string * JSValue)).

(** A thrown value: an [Error] object, of which the program reads only
    [message]. *)
Record JSError : Type := Error { message : option string }.

(** [a || d] on an optional string: [undefined] and the empty string are
    falsy. *)
Definition or_else (o : option string) (d : string) : string :=
  match o with
  | Some EmptyString | None => d
  | Some s => s
  end.

(** [!x] on an optional string. *)
Definition falsy (o : option string) : bool :=
  match o with
  | Some EmptyString | None => true
  | Some _ => false
  end.

(** A string interpolated in a template literal: [undefined] prints as the
    word. *)
Definition interpolate (o : option string) : string :=
  match o with
  | Some s => s
  | None => "undefined"
  end.

Fixpoint assoc (name : string) (fields : list (string * JSValue)) : option JSValue :=
  match fields with
  | [] => None
  | (k, v) :: rest => if String.eqb k name then Some v else assoc name rest
  end.

(** [v.name] for a property name that no prototype defines (the program reads
    [objectName], [personality] and [animationPrompt]): [inl] is the
    [TypeError] of reading a property of [null] (in V8's wording), [inr None]
    is [undefined]. *)
Definition get_property (v : JSValue) (name : string) : JSError + option JSValue :=
  match v with
  | JNull =>
      inl (Error (Some ("Cannot read properties of null (reading '" +:+ name +:+ "')")))
  | JObject fields => inr (assoc name fields)
  | _ => inr None
  end.

(** [interface PersonaDetails] of the program's types: three strings.  The
    interface is erased at run time; [persona_details v] tells whether a value
    has this shape. *)
Record PersonaDetails : Type := {
  objectName : string;
  personality : string;
  animationPrompt : string
}.

Definition string_property (v : JSValue) (name : string) : option string :=
  match get_property v name with
  | inr (Some (JString s)) => Some s
  | _ => None
  end.

Definition persona_details (v : JSValue) : option PersonaDetails :=
  n ← string_property v "objectName";
  p ← string_property v "personality";
  a ← string_property v "animationPrompt";
  Some {| objectName := n; personality := p; animationPrompt := a |}.

(** [s.split(',')]: the pieces of [s] between commas; never empty. *)
Fixpoint split_comma (s : string) : list string :=
  match s with
  | EmptyString => [EmptyString]
  | String c rest =>
      if Ascii.eqb c ","%char then EmptyString :: split_comma rest
      else match split_comma rest with
           | piece :: pieces => String c piece :: pieces
           | [] => [String c EmptyString]
           end
  end.

(** [base64Image.split(',')[1]], the image data both adapters send. *)
Definition image_data (base64Image : string) : option string :=
  split_comma base64Image !! 1%nat.

Fixpoint has_comma (s : string) : bool :=
  match s with
  | EmptyString => false
  | String c rest => Ascii.eqb c ","%char || has_comma rest
  end.

(** ** The remote services and the browser, as the adapters see them *)

Record GenerateContentResponse : Type := { text : option string }.

(** The part of a video operation that [generateAnimation] reads:
    [operation.done] and [operation.response?.generatedVideos?.[0]?.video?.uri]. *)
Record Video : Type := { uri : option string }.
Record GeneratedVideo : Type := { video : option Video }.
Record GenerateVideosResponse : Type := { generatedVideos : option (list GeneratedVideo) }.
Record Operation : Type := { done : option bool; response : option GenerateVideosResponse }.

Definition Blob : Type := list Byte.byte.

(** How a promise ends: fulfilled, rejected, or never settled. *)
Inductive Outcome (A : Type) : Type :=
| Fulfilled (a : A)
| Rejected (e : JSError)
| Pending.
Arguments Fulfilled {A} a.
Arguments Rejected {A} e.
Arguments Pending {A}.

Record HttpResponse : Type := { blob : Outcome Blob }.

(** The answers of the outside world.  [getVideosOperation k] is the answer to
    the [k]-th status request on the job (counting from 0). *)
Record Remote : Type := {
  API_KEY : option string;
  generateContent : option string -> Outcome GenerateContentResponse;
  generateVideos : option JSValue -> option string -> Outcome Operation;
  getVideosOperation : nat -> Outcome Operation;
  fetch : string -> Outcome HttpResponse;
  createObjectURL : Blob -> string
}.

(** What an adapter does to the outside world, in order. *)
Inductive Effect : Type :=
| GenerateContent (data : option string)
| GenerateVideos (prompt : option JSValue) (imageBytes : option string)
| SetTimeout (ms : Z)
| GetVideosOperation (k : nat)
| Fetch (url : string)
| ReadBlob
| CreateObjectURL (b : Blob).

(** ** Async functions: a trace of effects and an outcome *)

Definition Async (A : Type) : Type := list Effect * Outcome A.

Definition ret {A} (a : A) : Async A := ([], Fulfilled a).
Definition throw {A} (e : JSError) : Async A := ([], Rejected e).
Definition await {A} (eff : Effect) (answer : Outcome A) : Async A := ([eff], answer).

Definition bind {A B} (m : Async A) (f : A -> Async B) : Async B :=
  match m with
  | (t, Fulfilled a) => let '(t', o) := f a in (t ++ t', o)
  | (t, Rejected e) => (t, Rejected e)
  | (t, Pending) => (t, Pending)
  end.

Definition try_catch {A} (m : Async A) (handler : JSError -> Async A) : Async A :=
  match m with
  | (t, Rejected e) => let '(t', o) := handler e in (t ++ t', o)
  | _ => m
  end.

Notation "x <- m ;; k" := (bind m (fun x => k))
  (at level 100, m at next level, right associativity).
Notation "'try' m 'catch' h" := (try_catch m h) (at level 100, m at next level).

Definition trace {A} (m : Async A) : list Effect := fst m.
Definition outcome {A} (m : Async A) : Outcome A := snd m.

(** ** [src/services/geminiService.ts] *)

Section GeminiService.

(** [JSON.parse]: [None] when it throws a [SyntaxError]. *)
Variable JSON_parse : string -> option JSValue.
Variable env : Remote.

(** [JSON.parse(s)] inside an async function; the [SyntaxError] it throws
    carries an engine's message, which the caller's [catch] discards. *)
Definition JSON_parse_or_throw (s : string) : Async JSValue :=
  match JSON_parse s with
  | Some v => ret v
  | None => throw (Error (Some "Unexpected token in JSON"))
  end.

Definition analyzeImage (base64Image : string) : Async JSValue :=
  let data := image_data base64Image in
  response <- await (GenerateContent data) (generateContent env data) ;;
  try JSON_parse_or_throw (or_else (text response) "{}")
  catch (fun _ => throw (Error (Some "Failed to parse analysis results"))).

Definition operation_done (operation : Operation) : bool :=
  match done operation with
  | Some true => true
  | _ => false
  end.

(** [while (!operation.done) { await delay(8000); operation = await
    getVideosOperation(...) }], [k] status requests having been made
    before.  Out of fuel, the promise is still pending. *)
Fixpoint poll (fuel : nat) (k : nat) (operation : Operation) : Async Operation :=
  if operation_done operation then ret operation
  else match fuel with
       | O => ([], Pending)
       | S fuel' =>
           _ <- await (SetTimeout 8000) (Fulfilled tt) ;;
           operation' <- await (GetVideosOperation k) (getVideosOperation env k) ;;
           poll fuel' (S k) operation'
       end.

(** [operation.response?.generatedVideos?.[0]?.video?.uri] *)
Definition download_link (operation : Operation) : option string :=
  r ← response operation;
  vs ← generatedVideos r;
  v0 ← vs !! 0%nat;
  v ← video v0;
  uri v.

Definition generateAnimation (fuel : nat) (base64Image : string)
    (prompt : option JSValue) : Async string :=
  let imageBytes := image_data base64Image in
  operation <- await (GenerateVideos prompt imageBytes)
                     (generateVideos env prompt imageBytes) ;;
  operation <- poll fuel 0 operation ;;
  let downloadLink := download_link operation in
  if falsy downloadLink
  then throw (Error (Some "Video generation failed - no URI returned"))
  else
    let url := interpolate downloadLink +:+ "&key=" +:+ interpolate (API_KEY env) in
    videoResponse <- await (Fetch url) (fetch env url) ;;
    blob <- await ReadBlob (blob videoResponse) ;;
    await (CreateObjectURL blob) (Fulfilled (createObjectURL env blob)).

End GeminiService.

(** ** [src/App.tsx]: the controller *)

Module Status.
Inductive t : Type := idle | analyzing | generating | completed | error.

Definition eqb (a b : t) : bool :=
  match a, b with
  | idle, idle | analyzing, analyzing | generating, generating
  | completed, completed | error, error => true
  | _, _ => false
  end.
End Status.

Record AnimationState : Type := {
  status : Status.t;
  imageUrl : option string;
  videoUrl : option string;
  description : option string;
  error : option string
}.

(** A call of [processImage] suspended at one of its two [await]s, with the
    locals its continuation closes over. *)
Inductive Suspended : Type :=
| AwaitAnalyze (base64 : string)
| AwaitGenerate (base64 : string) (analysis : JSValue).

(** Adapter invocations, tagged with the run (the call of [processImage])
    that made them. *)
Inductive Call : Type :=
| CallAnalyzeImage (r : nat) (base64 : string)
| CallGenerateAnimation (r : nat) (base64 : string) (prompt : option JSValue).

(** The component: its two pieces of React state the pipeline uses, the calls
    of [processImage] that have not returned yet, and the adapter calls made
    so far. *)
Record World : Type := {
  state : AnimationState;
  persona : option JSValue;
  runs : gmap nat Suspended;
  next_run : nat;
  calls : list Call
}.

(** [useState({ status: 'idle' })], [useState(null)]. *)
Definition initial : World :=
  {| state := {| status := Status.idle; imageUrl := None; videoUrl := None;
                 description := None; error := None |};
     persona := None; runs := ∅; next_run := 0; calls := [] |}.

Definition setState (f : AnimationState -> AnimationState) (w : World) : World :=
  {| state := f (state w); persona := persona w; runs := runs w;
     next_run := next_run w; calls := calls w |}.

Definition setPersona (p : option JSValue) (w : World) : World :=
  {| state := state w; persona := p; runs := runs w;
     next_run := next_run w; calls := calls w |}.

Definition invoke (c : Call) (w : World) : World :=
  {| state := state w; persona := persona w; runs := runs w;
     next_run := next_run w; calls := calls w ++ [c] |}.

(** The async function suspends at an [await] ... *)
Definition suspend (r : nat) (k : Suspended) (w : World) : World :=
  {| state := state w; persona := persona w; runs := <[r := k]> (runs w);
     next_run := next_run w; calls := calls w |}.

(** ... and returns. *)
Definition finish (r : nat) (w : World) : World :=
  {| state := state w; persona := persona w; runs := delete r (runs w);
     next_run := next_run w; calls := calls w |}.

Definition new_run (w : World) : World :=
  {| state := state w; persona := persona w; runs := runs w;
     next_run := S (next_run w); calls := calls w |}.

(** [processImage(base64)] up to [await analyzeImage(base64)]. *)
Definition processImage (base64 : string) (w : World) : World :=
  let r := next_run w in
  let w := new_run w in
  let w := setState (fun _ => {| status := Status.analyzing; imageUrl := Some base64;
                                 videoUrl := None; description := None;
                                 error := None |}) w in
  let w := invoke (CallAnalyzeImage r base64) w in
  suspend r (AwaitAnalyze base64) w.

(** The [catch] block. *)
Definition processImage_catch (r : nat) (err : JSError) (w : World) : World :=
  let w := setState (fun prev =>
             {| status := Status.error; imageUrl := imageUrl prev;
                videoUrl := videoUrl prev; description := description prev;
                error := Some (or_else (message err) "Something went wrong") |}) w in
  finish r w.

(** From the fulfilment of [analyzeImage] to [await generateAnimation(...)]. *)
Definition processImage_analyzed (r : nat) (base64 : string) (analysis : JSValue)
    (w : World) : World :=
  let w := setPersona (Some analysis) w in
  let w := setState (fun prev =>
             {| status := Status.generating; imageUrl := imageUrl prev;
                videoUrl := videoUrl prev; description := description prev;
                error := error prev |}) w in
  match get_property analysis "animationPrompt" with
  | inl err => processImage_catch r err w
  | inr prompt =>
      let w := invoke (CallGenerateAnimation r base64 prompt) w in
      suspend r (AwaitGenerate base64 analysis) w
  end.

(** From the fulfilment of [generateAnimation] to the end of the [try]. *)
Definition processImage_generated (r : nat) (video : string) (w : World) : World :=
  let w := setState (fun prev =>
             {| status := Status.completed; imageUrl := imageUrl prev;
                videoUrl := Some video; description := description prev;
                error := error prev |}) w in
  finish r w.

Definition reset (w : World) : World :=
  let w := setState (fun _ => {| status := Status.idle; imageUrl := None;
                                 videoUrl := None; description := None;
                                 error := None |}) w in
  setPersona None w.

(** What can happen to the component: a capture or upload hands an image to
    [processImage], a promise a run awaits settles, or a click calls [reset]. *)
Inductive Event : Type :=
| Start (base64 : string)
| AnalyzeFulfilled (r : nat) (analysis : JSValue)
| AnalyzeRejected (r : nat) (err : JSError)
| GenerateFulfilled (r : nat) (video : string)
| GenerateRejected (r : nat) (err : JSError)
| Reset.

Definition step (w : World) (ev : Event) : World :=
  match ev with
  | Start base64 => processImage base64 w
  | AnalyzeFulfilled r analysis =>
      match runs w !! r with
      | Some (AwaitAnalyze base64) => processImage_analyzed r base64 analysis w
      | _ => w
      end
  | AnalyzeRejected r err =>
      match runs w !! r with
      | Some (AwaitAnalyze _) => processImage_catch r err w
      | _ => w
      end
  | GenerateFulfilled r video =>
      match runs w !! r with
      | Some (AwaitGenerate _ _) => processImage_generated r video w
      | _ => w
      end
  | GenerateRejected r err =>
      match runs w !! r with
      | Some (AwaitGenerate _ _) => processImage_catch r err w
      | _ => w
      end
  | Reset => reset w
  end.

Definition run_events (w : World) (evs : list Event) : World := fold_left step evs w.

(** How the settled promise of an adapter reaches the run that awaits it. *)
Definition analyze_settles (r : nat) (o : Outcome JSValue) : list Event :=
  match o with
  | Fulfilled analysis => [AnalyzeFulfilled r analysis]
  | Rejected err => [AnalyzeRejected r err]
  | Pending => []
  end.

Definition generate_settles (r : nat) (o : Outcome string) : list Event :=
  match o with
  | Fulfilled video => [GenerateFulfilled r video]
  | Rejected err => [GenerateRejected r err]
  | Pending => []
  end.

(** The view wires [processImage] (as [onCapture] of the camera and in the
    [onChange] of the file input) only inside
    [state.status === 'idle' && (...)], on the screen shown once a key is
    selected. *)
Definition offers_start (hasKey : bool) (w : World) : bool :=
  hasKey && Status.eqb (status (state w)) Status.idle.

(** The generator calls a run has made. *)
Definition is_generator_call (r : nat) (c : Call) : bool :=
  match c with
  | CallGenerateAnimation r' _ _ => Nat.eqb r' r
  | CallAnalyzeImage _ _ => false
  end.

Definition generator_calls (r : nat) (cs : list Call) : list Call :=
  List.filter (is_generator_call r) cs.

(** ** An executable [JSON.parse]

    The adapters take [JSON.parse] as a parameter.  This parser instantiates
    it on concrete response texts: the JSON grammar (objects, arrays, strings
    with the single-character escapes, numbers, [true], [false], [null],
    insignificant white space), without [\u] escapes. *)

Module MiniJSON.

Definition dquote : ascii := "034"%char.
Definition backslash : ascii := "\"%char.

Definition is_ws (c : ascii) : bool :=
  Ascii.eqb c " "%char || Ascii.eqb c "009"%char
  || Ascii.eqb c "010"%char || Ascii.eqb c "013"%char.

Definition is_digit (c : ascii) : bool :=
  (48 <=? nat_of_ascii c)%nat && (nat_of_ascii c <=? 57)%nat.

Fixpoint skip_ws (s : string) : string :=
  match s with
  | String c rest => if is_ws c then skip_ws rest else s
  | EmptyString => s
  end.

(** The longest prefix of digits, and what follows it. *)
Fixpoint digits (s : string) : string * string :=
  match s with
  | String c rest =>
      if is_digit c then let '(ds, rest') := digits rest in (String c ds, rest')
      else (EmptyString, s)
  | EmptyString => (EmptyString, s)
  end.

Definition some_digits (s : string) : option (string * string) :=
  match digits s with
  | (EmptyString, _) => None
  | r => Some r
  end.

(** [eat lit s]: [s] without its prefix [lit]. *)
Fixpoint eat (lit s : string) : option string :=
  match lit, s with
  | EmptyString, _ => Some s
  | String a lit', String b s' => if Ascii.eqb a b then eat lit' s' else None
  | String _ _, EmptyString => None
  end.

Definition unescape (c : ascii) : option ascii :=
  if Ascii.eqb c dquote then Some dquote
  else if Ascii.eqb c backslash then Some backslash
  else if Ascii.eqb c "/"%char then Some "/"%char
  else if Ascii.eqb c "b"%char then Some "008"%char
  else if Ascii.eqb c "f"%char then Some "012"%char
  else if Ascii.eqb c "n"%char then Some "010"%char
  else if Ascii.eqb c "r"%char then Some "013"%char
  else if Ascii.eqb c "t"%char then Some "009"%char
  else None.

(** The characters of a string literal, after its opening quote. *)
Fixpoint parse_chars (s : string) : option (string * string) :=
  match s with
  | EmptyString => None
  | String c rest =>
      if Ascii.eqb c dquote then Some (EmptyString, rest)
      else if Ascii.eqb c backslash then
        match rest with
        | String e rest' =>
            ch ← unescape e;
            '(str, rest'') ← parse_chars rest';
            Some (String ch str, rest'')
        | EmptyString => None
        end
      else if (nat_of_ascii c <? 32)%nat then None
      else '(str, rest') ← parse_chars rest; Some (String c str, rest')
  end.

Definition parse_number (s : string) : option (string * string) :=
  let '(sign, s) := match eat "-" s with
                    | Some r => ("-", r)
                    | None => (EmptyString, s)
                    end in
  '(int, s) ← match eat "0" s with
               | Some r => Some ("0", r)
               | None => some_digits s
               end;
  '(frac, s) ← match eat "." s with
                | Some r => '(ds, r') ← some_digits r; Some ("." +:+ ds, r')
                | None => Some (EmptyString, s)
                end;
  '(exp, s) ← match s with
               | String e r =>
                   if Ascii.eqb e "e"%char || Ascii.eqb e "E"%char then
                     let '(sg, r) := match r with
                                     | String g r' =>
                                         if Ascii.eqb g "+"%char || Ascii.eqb g "-"%char
                                         then (String g EmptyString, r')
                                         else (EmptyString, r)
                                     | EmptyString => (EmptyString, r)
                                     end in
                     '(ds, r') ← some_digits r;
                     Some (String e sg +:+ ds, r')
                   else Some (EmptyString, s)
               | EmptyString => Some (EmptyString, s)
               end;
  Some (sign +:+ int +:+ frac +:+ exp, s).

(** [obj[key] = v]: a repeated key keeps its place and takes the new
    value. *)
Fixpoint set_field (key : string) (v : JSValue) (fields : list (string * JSValue))
    : list (string * JSValue) :=
  match fields with
  | [] => [(key, v)]
  | (k, v') :: rest =>
      if String.eqb k key then (k, v) :: rest else (k, v') :: set_field key v rest
  end.

Fixpoint parse_value (fuel : nat) (s : string) {struct fuel}
    : option (JSValue * string) :=
  match fuel with
  | O => None
  | S fuel' =>
      match skip_ws s with
      | EmptyString => None
      | String c rest as s' =>
          if Ascii.eqb c "{"%char then
            match eat "}" (skip_ws rest) with
            | Some rest' => Some (JObject [], rest')
            | None => parse_members fuel' [] rest
            end
          else if Ascii.eqb c "["%char then
            match eat "]" (skip_ws rest) with
            | Some rest' => Some (JArray [], rest')
            | None => parse_elements fuel' [] rest
            end
          else if Ascii.eqb c dquote then
            '(str, rest') ← parse_chars rest; Some (JString str, rest')
          else if Ascii.eqb c "n"%char then rest' ← eat "null" s'; Some (JNull, rest')
          else if Ascii.eqb c "t"%char then rest' ← eat "true" s'; Some (JBool true, rest')
          else if Ascii.eqb c "f"%char then rest' ← eat "false" s'; Some (JBool false, rest')
          else '(lexeme, rest') ← parse_number s'; Some (JNumber lexeme, rest')
      end
  end
with parse_elements (fuel : nat) (acc : list JSValue) (s : string) {struct fuel}
    : option (JSValue * string) :=
  match fuel with
  | O => None
  | S fuel' =>
      '(v, rest) ← parse_value fuel' s;
      match skip_ws rest with
      | String c rest' =>
          if Ascii.eqb c ","%char then parse_elements fuel' (acc ++ [v]) rest'
          else if Ascii.eqb c "]"%char then Some (JArray (acc ++ [v]), rest')
          else None
      | EmptyString => None
      end
  end
with parse_members (fuel : nat) (acc : list (string * JSValue)) (s : string)
    {struct fuel} : option (JSValue * string) :=
  match fuel with
  | O => None
  | S fuel' =>
      rest ← eat (String dquote EmptyString) (skip_ws s);
      '(key, rest) ← parse_chars rest;
      rest ← eat ":" (skip_ws rest);
      '(v, rest) ← parse_value fuel' rest;
      match skip_ws rest with
      | String c rest' =>
          if Ascii.eqb c ","%char then parse_members fuel' (set_field key v acc) rest'
          else if Ascii.eqb c "}"%char then Some (JObject (set_field key v acc), rest')
          else None
      | EmptyString => None
      end
  end.

Definition parse (s : string) : option JSValue :=
  '(v, rest) ← parse_value (2 * String.length s + 2) s;
  match skip_ws rest with
  | EmptyString => Some v
  | String _ _ => None
  end.

(** Writing JSON texts: a quoted string literal. *)
Definition quoted (s : string) : string :=
  String dquote s +:+ String dquote EmptyString.

End MiniJSON.

(** ** Scenarios: concrete remotes the examples run against *)

Module Scenario.

Definition teapot_image : string := "data:image/jpeg;base64,/9j/4AAQSkZJRgABAQ==".

Definition field (name value : string) : string :=
  MiniJSON.quoted name +:+ ":" +:+ MiniJSON.quoted value.

Definition teapot_json : string :=
  "{" +:+ field "objectName" "teapot"
  +:+ "," +:+ field "personality" "a sassy grandma who judges your tea choices"
  +:+ "," +:+ field "animationPrompt" "teapot wiggles its spout and winks" +:+ "}".

Definition teapot : JSValue :=
  JObject [("objectName", JString "teapot");
           ("personality", JString "a sassy grandma who judges your tea choices");
           ("animationPrompt", JString "teapot wiggles its spout and winks")].

(** Valid JSON, but without [animationPrompt]. *)
Definition promptless_json : string :=
  "{" +:+ field "objectName" "teapot"
  +:+ "," +:+ field "personality" "a sassy grandma" +:+ "}".

Definition promptless : JSValue :=
  JObject [("objectName", JString "teapot"); ("personality", JString "a sassy grandma")].

Definition running : Operation := {| done := Some false; response := None |}.

Definition finished (link : option string) : Operation :=
  {| done := Some true;
     response := Some {| generatedVideos := Some [ {| video := Some {| uri := link |} |} ] |} |}.

Definition video_link : string := "https://videos.example/v1/teapot.mp4?alt=media".
Definition video_bytes : Blob := [Byte.x00; Byte.x00; Byte.x00; Byte.x18].
Definition object_url : string := "blob:https://animate.example/7f3c".

(** A remote that answers the analysis with [json], reports the job not
    done on submission and on the first [n] status requests, and then done
    with [link]. *)
Definition remote (json : string) (n : nat) (link : option string) : Remote :=
  {| API_KEY := Some "KEY";
     generateContent := fun _ => Fulfilled {| text := Some json |};
     generateVideos := fun _ _ => Fulfilled running;
     getVideosOperation := fun k =>
       Fulfilled (if (k <? n)%nat then running else finished link);
     fetch := fun url =>
       if String.eqb url (video_link +:+ "&key=KEY")
       then Fulfilled {| blob := Fulfilled video_bytes |}
       else Rejected (Error (Some "Failed to fetch"));
     createObjectURL := fun _ => object_url |}.

End Scenario.

(** ** Traces of the polling loop *)

(** [n] status requests numbered from [k], each after the 8000 ms delay. *)
Definition status_checks (k n : nat) : list Effect :=
  flat_map (fun i => [SetTimeout 8000; GetVideosOperation i]) (seq k n).

Definition is_status_check (eff : Effect) : bool :=
  match eff with
  | GetVideosOperation _ => true
  | _ => false
  end.

Definition count_status_checks (t : list Effect) : nat :=
  length (List.filter is_status_check t).

(** The handle the loop holds after [j] status requests, [k] having been
    made before [operation] was received. *)
Definition observed (env : Remote) (k : nat) (operation : Operation) (j : nat)
    : Outcome Operation :=
  match j with
  | O => Fulfilled operation
  | S i => getVideosOperation env (k + i)
  end.

(** The image data each request of a trace carries. *)
Definition image_sent (t : list Effect) : list (option string) :=
  flat_map (fun eff => match eff with
                       | GenerateContent data => [data]
                       | GenerateVideos _ imageBytes => [imageBytes]
                       | _ => []
                       end) t.

(** ** A whole run *)

(** [processImage(base64)] left undisturbed, both adapters answered by [env]:
    the call, then each awaited promise settling with the adapter's
    outcome. *)
Definition pipeline (JSON_parse : string -> option JSValue) (env : Remote)
    (fuel : nat) (base64 : string) (w : World) : World :=
  let r := next_run w in
  let w := step w (Start base64) in
  let w := run_events w (analyze_settles r (outcome (analyzeImage JSON_parse env base64))) in
  match runs w !! r with
  | Some (AwaitGenerate base64 analysis) =>
      match get_property analysis "animationPrompt" with
      | inr prompt =>
          run_events w (generate_settles r
                          (outcome (generateAnimation env fuel base64 prompt)))
      | inl _ => w
      end
  | _ => w
  end.

(** ** Invariants of the controller *)

(** What holds of every world the controller can reach: run numbers are
    handed out in order, and a run has called the generator only after its
    analysis was fulfilled. *)
Definition consistent (w : World) : Prop :=
  (forall r k, runs w !! r = Some k -> r < next_run w)
  /\ (forall r, next_run w <= r -> generator_calls r (calls w) = [])
  /\ (forall r base64, runs w !! r = Some (AwaitAnalyze base64) ->
        generator_calls r (calls w) = []).

(** Run [r] has returned without ever calling the generator. *)
Definition returned_without_generating (r : nat) (w : World) : Prop :=
  runs w !! r = None /\ r < next_run w /\ generator_calls r (calls w) = [].

Definition cleared : AnimationState :=
  {| status := Status.idle; imageUrl := None; videoUrl := None;
     description := None; error := None |}.

(** ** More of [split] and of the remote's answers *)

(** [pieces.join(',')] *)
Fixpoint join_comma (pieces : list string) : string :=
  match pieces with
  | [] => EmptyString
  | [piece] => piece
  | piece :: rest => piece +:+ "," +:+ join_comma rest
  end.

Fixpoint count_commas (s : string) : nat :=
  match s with
  | EmptyString => 0
  | String c rest => (if Ascii.eqb c ","%char then 1 else 0) + count_commas rest
  end.

(** What may follow the polling in a trace of [generateAnimation]: nothing,
    or the download of [link] with the key appended - cut short where a step
    of it fails. *)
Definition download_steps (env : Remote) (t : list Effect) : Prop :=
  t = []
  \/ exists link,
       link <> EmptyString
       /\ let url := link +:+ "&key=" +:+ interpolate (API_KEY env) in
          t = [Fetch url]
          \/ t = [Fetch url; ReadBlob]
          \/ exists b, t = [Fetch url; ReadBlob; CreateObjectURL b].

Module Cases.

(** A job that is accepted and never reports done. *)
Definition stuck : Remote :=
  {| API_KEY := None;
     generateContent := fun _ => Fulfilled {| text := Some Scenario.teapot_json |};
     generateVideos := fun _ _ => Fulfilled Scenario.running;
     getVideosOperation := fun _ => Fulfilled Scenario.running;
     fetch := fun _ => Rejected (Error (Some "Failed to fetch"));
     createObjectURL := fun _ => Scenario.object_url |}.

(** A remote whose every call is rejected with [e], but for the first [n]
    status requests, which report the job not done. *)
Definition failing (n : nat) (e : JSError) : Remote :=
  {| API_KEY := None;
     generateContent := fun _ => Rejected e;
     generateVideos := fun _ _ => Fulfilled Scenario.running;
     getVideosOperation := fun k =>
       if (k <? n)%nat then Fulfilled Scenario.running else Rejected e;
     fetch := fun _ => Rejected e;
     createObjectURL := fun _ => Scenario.object_url |}.

(** A job done at once, whose link cannot be downloaded: the fetch is
    rejected, or (with [body_fails]) the body cannot be read. *)
Definition undownloadable (body_fails : bool) (e : JSError) : Remote :=
  {| API_KEY := None;
     generateContent := fun _ => Fulfilled {| text := None |};
     generateVideos := fun _ _ =>
       Fulfilled (Scenario.finished (Some Scenario.video_link));
     getVideosOperation := fun _ => Rejected e;
     fetch := fun _ =>
       if body_fails then Fulfilled {| blob := Rejected e |} else Rejected e;
     createObjectURL := fun _ => Scenario.object_url |}.

Definition quota : JSError := Error (Some "429: quota exceeded").

End Cases.

(** ** More invariants of the controller *)

Definition is_analyzer_call (r : nat) (c : Call) : bool :=
  match c with
  | CallAnalyzeImage r' _ => Nat.eqb r' r
  | CallGenerateAnimation _ _ _ => false
  end.

(** The analyzer calls a run has made. *)
Definition analyzer_calls (r : nat) (cs : list Call) : list Call :=
  List.filter (is_analyzer_call r) cs.

(** Call [a] was made before call [g]. *)
Definition precedes (a g : Call) (cs : list Call) : Prop :=
  exists before between after, cs = before ++ a :: between ++ g :: after.

(** The adapter calls of every run, against the runs in flight: a run that
    has not started has called nothing; a started run [r] has called the
    analyzer once, with its image; it has then called the generator at most
    once, after the analyzer, with the same image; while it awaits the
    generator it has called it with the [animationPrompt] of the analysis it
    holds. *)
Definition calls_consistent (rs : gmap nat Suspended) (n : nat) (cs : list Call)
    : Prop :=
  (forall r, n <= r ->
     rs !! r = None /\ analyzer_calls r cs = [] /\ generator_calls r cs = [])
  /\ (forall r, r < n ->
        exists base64,
          analyzer_calls r cs = [CallAnalyzeImage r base64]
          /\ (forall b, rs !! r = Some (AwaitAnalyze b) ->
                b = base64 /\ generator_calls r cs = [])
          /\ (forall b analysis, rs !! r = Some (AwaitGenerate b analysis) ->
                b = base64
                /\ exists prompt,
                     get_property analysis "animationPrompt" = inr prompt
                     /\ generator_calls r cs = [CallGenerateAnimation r base64 prompt])
          /\ (generator_calls r cs = []
              \/ exists prompt,
                   generator_calls r cs = [CallGenerateAnimation r base64 prompt]
                   /\ precedes (CallAnalyzeImage r base64)
                        (CallGenerateAnimation r base64 prompt) cs)).

(** What the fields of the state hold in each status. *)
Definition state_shape (w : World) : Prop :=
  description (state w) = None
  /\ match status (state w) with
     | Status.idle => state w = cleared /\ persona w = None
     | Status.analyzing =>
         (exists base64, imageUrl (state w) = Some base64)
         /\ videoUrl (state w) = None /\ error (state w) = None
     | Status.generating => exists analysis, persona w = Some analysis
     | Status.completed => exists video, videoUrl (state w) = Some video
     | Status.error =>
         exists msg, error (state w) = Some msg /\ msg <> EmptyString
     end.

(** Event sequences as the view and a patient user produce them: a start
    only while the status is [idle] (the view offers it in no other), a reset
    only when no run is in flight. *)
Fixpoint orderly (w : World) (evs : list Event) : Prop :=
  match evs with
  | [] => True
  | ev :: rest =>
      match ev with
      | Start _ => status (state w) = Status.idle
      | Reset => runs w = ∅
      | _ => True
      end
      /\ orderly (step w ev) rest
  end.

(** ** [src/App.tsx]: what [App] renders *)

(** The alternatives of [<main>], with the state they show. *)
Inductive Main : Type :=
| Capture
    (* [CameraCapture] and the file input *)
| Progress (image : option string) (stage : Status.t)
    (* [<img src={state.imageUrl}>] under the spinner *)
| Result (video : option string) (persona : JSValue)
    (* [<video src={state.videoUrl}>], the persona, Animate Another, Save Video *)
| Failure (message : option string)
    (* [{state.error}] and Try Again *)
| Text (s : string).
    (* a number left by [&&], which React renders as text *)

(** The key screen, or the page: whether the header shows its Reset button,
    and the alternatives of [<main>] that are rendered. *)
Inductive Screen : Type :=
| KeyScreen
| Page (reset_button : bool) (main : list Main).

Section View.

(** Whether the number a JSON lexeme denotes is [0] or [-0]. *)
Variable number_is_zero : string -> bool.

(** [!!v] *)
Definition truthy (v : JSValue) : bool :=
  match v with
  | JNull => false
  | JBool b => b
  | JNumber lexeme => negb (number_is_zero lexeme)
  | JString s => negb (String.eqb s EmptyString)
  | JArray _ | JObject _ => true
  end.

(** The alternatives of [<main>] that show.  In
    [{state.status === 'completed' && persona && (...)}] a falsy persona is
    itself the value of the expression: React renders nothing for [null],
    [false] and the empty string, and the text [0] for the number zero
    ([-0] too). *)
Definition main_panels (w : World) : list Main :=
  let st := state w in
  (if Status.eqb (status st) Status.idle then [Capture] else [])
  ++ (if Status.eqb (status st) Status.analyzing
         || Status.eqb (status st) Status.generating
      then [Progress (imageUrl st) (status st)] else [])
  ++ (if Status.eqb (status st) Status.completed then
        match persona w with
        | Some p =>
            if truthy p then [Result (videoUrl st) p]
            else match p with
                 | JNumber _ => [Text "0"]
                 | _ => []
                 end
        | None => []
        end
      else [])
  ++ (if Status.eqb (status st) Status.error then [Failure (error st)] else []).

Definition render (hasKey : bool) (w : World) : Screen :=
  if hasKey
  then Page (negb (Status.eqb (status (state w)) Status.idle)) (main_panels w)
  else KeyScreen.

End View.

(** ** [src/App.tsx]: the key gate *)

(** [window.aistudio]: the answers of its two methods. *)
Record AIStudio : Type := {
  hasSelectedApiKey : Outcome bool;
  openSelectKey : Outcome unit
}.

(** [checkKey], run once on mount: [setHasKey(!!selected)] once
    [window.aistudio?.hasSelectedApiKey()] is there. *)
Definition checkKey (aistudio : option AIStudio) (hasKey : bool) : bool :=
  match aistudio with
  | None => false
  | Some studio =>
      match hasSelectedApiKey studio with
      | Fulfilled selected => selected
      | Rejected _ | Pending => hasKey
      end
  end.

(** [handleKeySelection]: [setHasKey(true)] once
    [window.aistudio?.openSelectKey()] is through. *)
Definition handleKeySelection (aistudio : option AIStudio) (hasKey : bool) : bool :=
  match aistudio with
  | None => true
  | Some studio =>
      match openSelectKey studio with
      | Fulfilled _ => true
      | Rejected _ | Pending => hasKey
      end
  end.

(** Whether a click on Select API Key gets as far as [setHasKey(true)]. *)
Definition goes_through (aistudio : option AIStudio) : bool :=
  match aistudio with
  | None => true
  | Some studio =>
      match openSelectKey studio with
      | Fulfilled _ => true
      | Rejected _ | Pending => false
      end
  end.

(** ** [src/App.tsx]: the page, with its upload path *)

(** The controller with what surrounds it: the key flag, and the
    [FileReader]s at work, each with the data URL it will load. *)
Record PageState : Type := {
  world : World;
  hasKey : bool;
  reading : list string
}.

Inductive Gesture : Type :=
| PickFiles (files : list string)
    (* [onChange] of the file input; a file stands for the data URL that
       [readAsDataURL] makes of it *)
| FileLoaded (i : nat)
    (* [reader.onload] of the [i]-th reader at work *)
| Snap (dataUrl : string)
    (* [CameraCapture] calls [onCapture] *)
| ClickReset
| KeyChecked (aistudio : option AIStudio)
    (* [checkKey], started by the effect on mount, gets its answer from
       [window.aistudio] *)
| SelectKey (aistudio : option AIStudio)
    (* a click on Select API Key, with [window.aistudio] as it is then *)
| Settles (ev : Event).
    (* a promise awaited by a run settles *)

(** [onChange]: [const file = e.target.files?.[0]; if (file) { ...
    reader.readAsDataURL(file) }] *)
Definition onChange (files : list string) (p : PageState) : PageState :=
  match files !! 0%nat with
  | Some file => {| world := world p; hasKey := hasKey p;
                    reading := reading p ++ [file] |}
  | None => p
  end.

Definition in_world (f : World -> World) (p : PageState) : PageState :=
  {| world := f (world p); hasKey := hasKey p; reading := reading p |}.

(** A gesture acts only through a control that is rendered: the capture and
    upload controls while [offers_start], the header's logo (wired to [reset])
    on the page, Select API Key on the key screen.  A reader that was started
    loads whatever is rendered by then. *)
Definition gesture (p : PageState) (g : Gesture) : PageState :=
  match g with
  | PickFiles files =>
      if offers_start (hasKey p) (world p) then onChange files p else p
  | FileLoaded i =>
      match reading p !! i with
      | Some result =>
          {| world := processImage result (world p); hasKey := hasKey p;
             reading := take i (reading p) ++ drop (S i) (reading p) |}
      | None => p
      end
  | Snap dataUrl =>
      if offers_start (hasKey p) (world p)
      then in_world (processImage dataUrl) p else p
  | ClickReset => if hasKey p then in_world reset p else p
  | KeyChecked aistudio =>
      {| world := world p; hasKey := checkKey aistudio (hasKey p);
         reading := reading p |}
  | SelectKey aistudio =>
      if hasKey p then p
      else {| world := world p; hasKey := handleKeySelection aistudio (hasKey p);
              reading := reading p |}
  | Settles ev =>
      match ev with
      | Start _ | Reset => p
      | _ => in_world (fun w => step w ev) p
      end
  end.

Definition gestures (p : PageState) (gs : list Gesture) : PageState :=
  fold_left gesture gs p.

(** ** [src/App.tsx]: [CameraCapture]

    The component under React's contract for [useState] and [useEffect]:
    a handler or cleanup sees the [stream] of the render that created it;
    [setStream] takes effect at the next render; after a render is committed,
    the effect's previous cleanup runs if [stream] is not the same object as
    in the render that set the effect up, and the new cleanup takes its
    place. *)

(** A [MediaStream]: the identity of the object, and its tracks. *)
Record MediaStream : Type := { stream_id : nat; tracks : list nat }.

(** [Object.is] on the dependency [stream]. *)
Definition same_stream (a b : option MediaStream) : bool :=
  match a, b with
  | None, None => true
  | Some s, Some s' => Nat.eqb (stream_id s) (stream_id s')
  | _, _ => false
  end.

Record Camera : Type := {
  stream : option MediaStream;    (* the state [stream] *)
  shown : option MediaStream;     (* [stream] in the render last committed *)
  effect : option MediaStream;    (* [stream] in the render whose effect is in place *)
  srcObject : option MediaStream; (* of the [<video>], while it is rendered *)
  stopped : list nat;             (* the tracks [stop()] was called on *)
  handed : list string;           (* the arguments of the calls of [onCapture] *)
  logged : nat;                   (* calls of [console.error] *)
  requested : nat;                (* calls of [getUserMedia] not yet settled *)
  next_stream : nat;              (* streams obtained so far *)
  mounted : bool
}.

(** After the first render and its effect. *)
Definition camera_mounted : Camera :=
  {| stream := None; shown := None; effect := None; srcObject := None;
     stopped := []; handed := []; logged := 0; requested := 0;
     next_stream := 0; mounted := true |}.

Definition stream_tracks (s : option MediaStream) : list nat :=
  match s with
  | Some s => tracks s
  | None => []
  end.

(** [stopCamera] of a render in which [stream] was [s]:
    [stream?.getTracks().forEach(track => track.stop()); setStream(null)]. *)
Definition stopCamera (s : option MediaStream) (c : Camera) : Camera :=
  {| stream := None; shown := shown c; effect := effect c;
     srcObject := srcObject c; stopped := stopped c ++ stream_tracks s;
     handed := handed c; logged := logged c; requested := requested c;
     next_stream := next_stream c; mounted := mounted c |}.

(** [startCamera] up to its [await]. *)
Definition startCamera (c : Camera) : Camera :=
  {| stream := stream c; shown := shown c; effect := effect c;
     srcObject := srcObject c; stopped := stopped c; handed := handed c;
     logged := logged c; requested := S (requested c);
     next_stream := next_stream c; mounted := mounted c |}.

(** [startCamera] from the answer of [getUserMedia]: a new stream with the
    given tracks goes to [setStream], and to the [<video>] if there is one;
    a refusal is logged. *)
Definition startCamera_answered (answer : Outcome (list nat)) (c : Camera) : Camera :=
  match answer with
  | Fulfilled ts =>
      let s := {| stream_id := next_stream c; tracks := ts |} in
      {| stream := if mounted c then Some s else stream c;
         shown := shown c; effect := effect c;
         srcObject := match shown c with
                      | Some _ => if mounted c then Some s else srcObject c
                      | None => srcObject c
                      end;
         stopped := stopped c; handed := handed c; logged := logged c;
         requested := pred (requested c);
         next_stream := S (next_stream c); mounted := mounted c |}
  | Rejected _ =>
      {| stream := stream c; shown := shown c; effect := effect c;
         srcObject := srcObject c; stopped := stopped c; handed := handed c;
         logged := S (logged c); requested := pred (requested c);
         next_stream := next_stream c; mounted := mounted c |}
  | Pending => c
  end.

(** [capture] of the committed render.  The two refs hold elements while the
    preview is rendered; [context] tells whether [getContext('2d')] gave one,
    [dataUrl] is what [toDataURL('image/jpeg')] returns once the canvas is
    sized to the video and the frame drawn. *)
Definition capture (context : bool) (dataUrl : string) (c : Camera) : Camera :=
  match shown c with
  | Some _ =>
      if context then
        stopCamera (shown c)
          {| stream := stream c; shown := shown c; effect := effect c;
             srcObject := srcObject c; stopped := stopped c;
             handed := handed c ++ [dataUrl]; logged := logged c;
             requested := requested c; next_stream := next_stream c;
             mounted := mounted c |}
      else c
  | None => c
  end.

(** React renders the current state and commits it; a [<video>] that is no
    longer rendered is gone with its [srcObject]. *)
Definition commit (c : Camera) : Camera :=
  {| stream := stream c; shown := stream c; effect := effect c;
     srcObject := match stream c with
                  | Some _ => srcObject c
                  | None => None
                  end;
     stopped := stopped c; handed := handed c; logged := logged c;
     requested := requested c; next_stream := next_stream c;
     mounted := mounted c |}.

(** [useEffect(() => { return () => stopCamera(); }, [stream])] after a
    commit. *)
Definition flush (c : Camera) : Camera :=
  if same_stream (effect c) (shown c) then c
  else
    let c := stopCamera (effect c) c in
    {| stream := stream c; shown := shown c; effect := shown c;
       srcObject := srcObject c; stopped := stopped c; handed := handed c;
       logged := logged c; requested := requested c;
       next_stream := next_stream c; mounted := mounted c |}.

(** The component is removed: the cleanup in place runs, and state updates
    are ignored from then on. *)
Definition unmount (c : Camera) : Camera :=
  let c := stopCamera (effect c) c in
  {| stream := stream c; shown := shown c; effect := effect c;
     srcObject := None; stopped := stopped c; handed := handed c;
     logged := logged c; requested := requested c;
     next_stream := next_stream c; mounted := false |}.

Inductive CameraEvent : Type :=
| ClickCamera                                (* the button, rendered while no stream is shown *)
| CameraAnswers (answer : Outcome (list nat)) (* [getUserMedia] settles *)
| ClickSnap (context : bool) (dataUrl : string)
| ClickCancel
| Commit
| Flush
| Unmount.

Definition camera_step (c : Camera) (ev : CameraEvent) : Camera :=
  if negb (mounted c) then
    match ev with
    | CameraAnswers answer =>
        if (0 <? requested c)%nat then startCamera_answered answer c else c
    | _ => c
    end
  else
    match ev with
    | ClickCamera => match shown c with None => startCamera c | Some _ => c end
    | CameraAnswers answer =>
        if (0 <? requested c)%nat then startCamera_answered answer c else c
    | ClickSnap context dataUrl => capture context dataUrl c
    | ClickCancel => match shown c with Some _ => stopCamera (shown c) c | None => c end
    | Commit => commit c
    | Flush => flush c
    | Unmount => unmount c
    end.

Definition camera_run (c : Camera) (evs : list CameraEvent) : Camera :=
  fold_left camera_step evs c.

(** Nothing left for React to do: the state is rendered, its effect in
    place. *)
Definition quiescent (c : Camera) : bool :=
  same_stream (stream c) (shown c) && same_stream (effect c) (shown c).

(** React at work until nothing is left to do. *)
Definition settle (c : Camera) : Camera := flush (commit (flush (commit c))).

(** The streams a camera holds are among those obtained, and the stream in
    the state is not the one the effect in place was set up for. *)
Definition camera_ok (c : Camera) : Prop :=
  (forall s, stream c = Some s -> stream_id s < next_stream c)
  /\ (forall s, shown c = Some s -> stream_id s < next_stream c)
  /\ (forall s, effect c = Some s -> stream_id s < next_stream c)
  /\ (mounted c = true ->
      forall s, stream c = Some s -> same_stream (effect c) (Some s) = false).

(** The page as [App] mounts it: the key screen, [hasKey] false. *)
Definition locked : PageState :=
  {| world := initial; hasKey := false; reading := [] |}.

(** * Properties *)

(** ** The parser on sample texts *)

Example parse_braces : MiniJSON.parse "{}" = Some (JObject []).
Proof. reflexivity. Qed.

Example parse_teapot :
  MiniJSON.parse ("{ " +:+ MiniJSON.quoted "objectName" +:+ ": "
                  +:+ MiniJSON.quoted "teapot" +:+ ", "
                  +:+ MiniJSON.quoted "n" +:+ ": [1, -2.50e+3, true, null] }")
  = Some (JObject [("objectName", JString "teapot");
                   ("n", JArray [JNumber "1"; JNumber "-2.50e+3"; JBool true; JNull])]).
Proof. vm_compute. reflexivity. Qed.

Example parse_rejects_trailing_comma : MiniJSON.parse "[1,]" = None.
Proof. vm_compute. reflexivity. Qed.

Example parse_rejects_leading_zero : MiniJSON.parse "01" = None.
Proof. vm_compute. reflexivity. Qed.

Example parse_rejects_plain_text : MiniJSON.parse "Sorry, I cannot help" = None.
Proof. vm_compute. reflexivity. Qed.

Example parse_null : MiniJSON.parse " null " = Some JNull.
Proof. vm_compute. reflexivity. Qed.

(** ** [split(',')[1]] *)

Lemma split_comma_no_comma (s : string) :
  has_comma s = false -> split_comma s = [s].
Proof.
  induction s as [|c s IH]; simpl; [done|].
  destruct (Ascii.eqb c ","); simpl; [done|].
  intros H. by rewrite (IH H).
Qed.

Lemma split_comma_app (header rest : string) :
  has_comma header = false ->
  split_comma (header +:+ "," +:+ rest) = header :: split_comma rest.
Proof.
  induction header as [|c h IH]; simpl; [done|].
  destruct (Ascii.eqb c ","); simpl; [done|].
  intros H. by rewrite (IH H).
Qed.

Lemma image_data_no_comma (s : string) :
  has_comma s = false -> image_data s = None.
Proof. intros H. unfold image_data. by rewrite split_comma_no_comma. Qed.

Lemma image_data_data_url (header payload : string) :
  has_comma header = false -> has_comma payload = false ->
  image_data (header +:+ "," +:+ payload) = Some payload.
Proof.
  intros Hh Hp. unfold image_data.
  rewrite split_comma_app by done. by rewrite split_comma_no_comma.
Qed.

(** With a second comma, only the piece between the first two is sent. *)
Lemma image_data_second_comma (header piece rest : string) :
  has_comma header = false -> has_comma piece = false ->
  image_data (header +:+ "," +:+ piece +:+ "," +:+ rest) = Some piece.
Proof.
  intros Hh Hp. unfold image_data.
  rewrite split_comma_app by done. by rewrite split_comma_app.
Qed.

(** ** The polling loop of [generateAnimation] *)

Section Polling.

Variable env : Remote.

Lemma poll_done (fuel k : nat) (operation : Operation) :
  operation_done operation = true ->
  poll env fuel k operation = ([], Fulfilled operation).
Proof. intros H. destruct fuel; simpl; by rewrite H. Qed.

Lemma observed_next (k : nat) (operation next : Operation) :
  getVideosOperation env k = Fulfilled next ->
  forall j, observed env (S k) next j = observed env k operation (S j).
Proof.
  intros Hk [|i]; simpl.
  - by rewrite Nat.add_0_r.
  - by rewrite Nat.add_succ_r.
Qed.

(** The loop makes exactly as many status requests as it takes to see a
    handle that is done, and leaves with that handle. *)
Lemma poll_until_done (m : nat) :
  forall (fuel k : nat) (operation last : Operation),
    m <= fuel ->
    (forall j, j < m ->
       exists op, observed env k operation j = Fulfilled op
                  /\ operation_done op = false) ->
    observed env k operation m = Fulfilled last ->
    operation_done last = true ->
    poll env fuel k operation = (status_checks k m, Fulfilled last).
Proof.
  induction m as [|m IH]; intros fuel k operation last Hfuel Hrun Hlast Hdone.
  - simpl in Hlast. injection Hlast as ->. by apply poll_done.
  - destruct (Hrun 0 ltac:(lia)) as (op0 & Hop0 & Hnot).
    simpl in Hop0. injection Hop0 as <-.
    destruct fuel as [|fuel]; [lia|].
    assert (exists next, getVideosOperation env k = Fulfilled next) as [next Hnext].
    { destruct m as [|m].
      - exists last. simpl in Hlast. by rewrite Nat.add_0_r in Hlast.
      - destruct (Hrun 1 ltac:(lia)) as (op1 & Hop1 & _).
        exists op1. simpl in Hop1. by rewrite Nat.add_0_r in Hop1. }
    pose proof (observed_next k operation next Hnext) as Hshift.
    assert (poll env fuel (S k) next = (status_checks (S k) m, Fulfilled last)) as Hrec.
    { apply IH; [lia| |by rewrite Hshift|done].
      intros j Hj. rewrite Hshift. apply Hrun. lia. }
    simpl. rewrite Hnot. unfold bind, await. rewrite Hnext, Hrec. reflexivity.
Qed.

(** A job that never reports done keeps the loop going: whatever the fuel,
    the promise is still pending, after one request per unit of fuel. *)
Lemma poll_never_done (fuel : nat) :
  forall (k : nat) (operation : Operation),
    (forall j, exists op, observed env k operation j = Fulfilled op
                          /\ operation_done op = false) ->
    poll env fuel k operation = (status_checks k fuel, Pending).
Proof.
  induction fuel as [|fuel IH]; intros k operation Hrun.
  - destruct (Hrun 0) as (op0 & Hop0 & Hnot).
    simpl in Hop0. injection Hop0 as <-. simpl. by rewrite Hnot.
  - destruct (Hrun 0) as (op0 & Hop0 & Hnot).
    simpl in Hop0. injection Hop0 as <-.
    destruct (Hrun 1) as (next & Hnext & _).
    simpl in Hnext. rewrite Nat.add_0_r in Hnext.
    pose proof (observed_next k operation next Hnext) as Hshift.
    simpl. rewrite Hnot. unfold bind, await. rewrite Hnext.
    rewrite (IH (S k) next); [reflexivity|].
    intros j. rewrite Hshift. apply Hrun.
Qed.

Lemma count_status_checks_app (t1 t2 : list Effect) :
  count_status_checks (t1 ++ t2) = count_status_checks t1 + count_status_checks t2.
Proof. unfold count_status_checks. by rewrite List.filter_app, length_app. Qed.

Lemma count_status_checks_polling (n : nat) :
  forall k, count_status_checks (status_checks k n) = n.
Proof.
  induction n as [|n IH]; intros k; [done|].
  change (status_checks k (S n))
    with ([SetTimeout 8000; GetVideosOperation k] ++ status_checks (S k) n).
  rewrite count_status_checks_app, IH. reflexivity.
Qed.

Lemma image_sent_app (t1 t2 : list Effect) :
  image_sent (t1 ++ t2) = image_sent t1 ++ image_sent t2.
Proof. unfold image_sent. apply flat_map_app. Qed.

(** The loop sends no image. *)
Lemma image_sent_poll (fuel : nat) :
  forall k operation, image_sent (trace (poll env fuel k operation)) = [].
Proof.
  induction fuel as [|fuel IH]; intros k operation; simpl.
  - by destruct (operation_done operation).
  - destruct (operation_done operation); [done|].
    unfold bind, await.
    destruct (getVideosOperation env k) as [next| |]; [|done|done].
    specialize (IH (S k) next).
    destruct (poll env fuel (S k) next) as [t o]. simpl in *.
    by rewrite IH.
Qed.

End Polling.

(** ** [generateAnimation] *)

(** A complete successful run: [m] status requests until a handle is done,
    then the fetch of its link. *)
Lemma generateAnimation_fetches
    (env : Remote) (m fuel : nat) (base64 : string) (prompt : option JSValue)
    (first last : Operation) (link : string)
    (videoResponse : HttpResponse) (b : Blob) :
  generateVideos env prompt (image_data base64) = Fulfilled first ->
  (forall j, j < m ->
     exists op, observed env 0 first j = Fulfilled op /\ operation_done op = false) ->
  observed env 0 first m = Fulfilled last ->
  operation_done last = true ->
  download_link last = Some link ->
  link <> "" ->
  fetch env (link +:+ "&key=" +:+ interpolate (API_KEY env)) = Fulfilled videoResponse ->
  blob videoResponse = Fulfilled b ->
  m <= fuel ->
  generateAnimation env fuel base64 prompt
  = (GenerateVideos prompt (image_data base64)
     :: status_checks 0 m
     ++ [Fetch (link +:+ "&key=" +:+ interpolate (API_KEY env));
         ReadBlob; CreateObjectURL b],
     Fulfilled (createObjectURL env b)).
Proof.
  intros Hsubmit Hrun Hlast Hdone Hlink Hne Hfetch Hblob Hfuel.
  assert (poll env fuel 0 first = (status_checks 0 m, Fulfilled last)) as Hpoll
    by (by apply poll_until_done).
  assert (falsy (Some link) = false) as Hfalsy by (destruct link; done).
  unfold generateAnimation, bind at 1, await at 1. rewrite Hsubmit.
  unfold bind at 1. rewrite Hpoll, Hlink, Hfalsy.
  unfold bind, await. simpl interpolate at 1. rewrite Hfetch, Hblob. reflexivity.
Qed.

(** C3: when the submitted job is not done on return, its status requests
    answer not done [N] times and then done with a non-empty media link, and
    the link can be fetched, [generateAnimation] (given fuel for the [N + 1]
    rounds) makes exactly [N + 1] status requests, each after the same delay
    of 8000 ms, then fetches the link and fulfils with the object URL of the
    fetched blob. *)
Theorem generateAnimation_polls_until_done
    (env : Remote) (N fuel : nat) (base64 : string) (prompt : option JSValue)
    (first last : Operation) (link : string)
    (videoResponse : HttpResponse) (b : Blob) :
  generateVideos env prompt (image_data base64) = Fulfilled first ->
  operation_done first = false ->
  (forall i, i < N ->
     exists op, getVideosOperation env i = Fulfilled op /\ operation_done op = false) ->
  getVideosOperation env N = Fulfilled last ->
  operation_done last = true ->
  download_link last = Some link ->
  link <> "" ->
  fetch env (link +:+ "&key=" +:+ interpolate (API_KEY env)) = Fulfilled videoResponse ->
  blob videoResponse = Fulfilled b ->
  S N <= fuel ->
  let run := generateAnimation env fuel base64 prompt in
  trace run = GenerateVideos prompt (image_data base64)
              :: status_checks 0 (S N)
              ++ [Fetch (link +:+ "&key=" +:+ interpolate (API_KEY env));
                  ReadBlob; CreateObjectURL b]
  /\ count_status_checks (trace run) = S N
  /\ outcome run = Fulfilled (createObjectURL env b).
Proof.
  intros Hsubmit Hfirst Hrun Hlast Hdone Hlink Hne Hfetch Hblob Hfuel run.
  unfold run.
  rewrite (generateAnimation_fetches env (S N) fuel base64 prompt first last link
             videoResponse b); try done.
  - split; [reflexivity|]. split; [|reflexivity].
    unfold trace, fst.
    change (GenerateVideos prompt (image_data base64) :: ?t)
      with ([GenerateVideos prompt (image_data base64)] ++ t).
    rewrite !count_status_checks_app, count_status_checks_polling.
    unfold count_status_checks. simpl. lia.
  - intros [|i] Hi; simpl.
    + by exists first.
    + apply Hrun. lia.
Qed.

Lemma generateAnimation_polls_until_done_witness :
  let run := generateAnimation
               (Scenario.remote Scenario.teapot_json 3 (Some Scenario.video_link))
               10 Scenario.teapot_image
               (Some (JString "teapot wiggles its spout and winks")) in
  trace run = GenerateVideos (Some (JString "teapot wiggles its spout and winks"))
                             (image_data Scenario.teapot_image)
              :: status_checks 0 4
              ++ [Fetch (Scenario.video_link +:+ "&key=" +:+ "KEY");
                  ReadBlob; CreateObjectURL Scenario.video_bytes]
  /\ count_status_checks (trace run) = 4
  /\ outcome run = Fulfilled Scenario.object_url.
Proof.
  apply (generateAnimation_polls_until_done
           (Scenario.remote Scenario.teapot_json 3 (Some Scenario.video_link))
           3 10 Scenario.teapot_image _
           Scenario.running (Scenario.finished (Some Scenario.video_link))
           Scenario.video_link {| blob := Fulfilled Scenario.video_bytes |}
           Scenario.video_bytes).
  - reflexivity.
  - reflexivity.
  - intros i Hi. exists Scenario.running. split; [|reflexivity].
    simpl. apply Nat.ltb_lt in Hi. by rewrite Hi.
  - reflexivity.
  - reflexivity.
  - reflexivity.
  - discriminate.
  - vm_compute. reflexivity.
  - reflexivity.
  - lia.
Defined.

(** C6: when the first handle that is done (the submitted one or the answer
    to a status request) has no media link - no response, no video, no link,
    or an empty one - [generateAnimation] rejects with its
    generation-failed error; its trace ends with the status request that
    returned this handle, however much fuel is left: no further status
    request, no fetch. *)
Theorem generateAnimation_done_without_link
    (env : Remote) (m fuel : nat) (base64 : string) (prompt : option JSValue)
    (first last : Operation) :
  generateVideos env prompt (image_data base64) = Fulfilled first ->
  (forall j, j < m ->
     exists op, observed env 0 first j = Fulfilled op /\ operation_done op = false) ->
  observed env 0 first m = Fulfilled last ->
  operation_done last = true ->
  falsy (download_link last) = true ->
  m <= fuel ->
  let run := generateAnimation env fuel base64 prompt in
  trace run = GenerateVideos prompt (image_data base64) :: status_checks 0 m
  /\ count_status_checks (trace run) = m
  /\ outcome run = Rejected (Error (Some "Video generation failed - no URI returned")).
Proof.
  intros Hsubmit Hrun Hlast Hdone Hfalsy Hfuel run.
  assert (poll env fuel 0 first = (status_checks 0 m, Fulfilled last)) as Hpoll
    by (by apply poll_until_done).
  assert (run = (GenerateVideos prompt (image_data base64) :: status_checks 0 m,
                 Rejected (Error (Some "Video generation failed - no URI returned"))))
    as ->.
  { unfold run, generateAnimation, bind at 1, await at 1. rewrite Hsubmit.
    unfold bind at 1. rewrite Hpoll, Hfalsy. unfold throw.
    by rewrite app_nil_r. }
  split; [reflexivity|]. split; [|reflexivity].
  unfold trace, fst.
  change (GenerateVideos prompt (image_data base64) :: ?t)
    with ([GenerateVideos prompt (image_data base64)] ++ t).
  rewrite count_status_checks_app, count_status_checks_polling.
  unfold count_status_checks. simpl. lia.
Qed.

Lemma generateAnimation_done_without_link_witness :
  let run := generateAnimation (Scenario.remote Scenario.teapot_json 2 None)
               50 Scenario.teapot_image None in
  trace run = GenerateVideos None (image_data Scenario.teapot_image) :: status_checks 0 3
  /\ count_status_checks (trace run) = 3
  /\ outcome run = Rejected (Error (Some "Video generation failed - no URI returned")).
Proof.
  apply (generateAnimation_done_without_link
           (Scenario.remote Scenario.teapot_json 2 None) 3 50
           Scenario.teapot_image None Scenario.running (Scenario.finished None)).
  - reflexivity.
  - intros j Hj. exists Scenario.running. split; [|reflexivity].
    destruct j as [|[|[|j]]]; [reflexivity..|lia].
  - reflexivity.
  - reflexivity.
  - reflexivity.
  - lia.
Defined.

(** ** [analyzeImage] *)

Lemma analyzeImage_answered
    (JSON_parse : string -> option JSValue) (env : Remote) (base64 : string)
    (response : GenerateContentResponse) :
  generateContent env (image_data base64) = Fulfilled response ->
  analyzeImage JSON_parse env base64
  = ([GenerateContent (image_data base64)],
     match JSON_parse (or_else (text response) "{}") with
     | Some v => Fulfilled v
     | None => Rejected (Error (Some "Failed to parse analysis results"))
     end).
Proof.
  intros Hanswer. unfold analyzeImage, bind, await. rewrite Hanswer.
  unfold JSON_parse_or_throw.
  by destruct (JSON_parse (or_else (text response) "{}")).
Qed.

(** C9: when the remote call succeeds with a response whose text is missing
    or empty, [analyzeImage] fulfils with the value of [JSON.parse('{}')], the
    object without any of the three persona fields; it rejects with its
    parse-failure error exactly when the text is present, non-empty and
    rejected by [JSON.parse]. *)
Theorem analyzeImage_empty_text
    (JSON_parse : string -> option JSValue) (env : Remote) (base64 : string)
    (response : GenerateContentResponse) :
  JSON_parse "{}" = Some (JObject []) ->
  generateContent env (image_data base64) = Fulfilled response ->
  let result := outcome (analyzeImage JSON_parse env base64) in
  (falsy (text response) = true ->
     result = Fulfilled (JObject [])
     /\ get_property (JObject []) "objectName" = inr None
     /\ get_property (JObject []) "personality" = inr None
     /\ get_property (JObject []) "animationPrompt" = inr None)
  /\ (result = Rejected (Error (Some "Failed to parse analysis results")) <->
      exists t, text response = Some t /\ t <> "" /\ JSON_parse t = None).
Proof.
  intros Hbraces Hanswer result. unfold result.
  rewrite (analyzeImage_answered _ _ _ _ Hanswer). unfold outcome, snd.
  destruct (text response) as [[|c t]|] eqn:Htext; simpl.
  - rewrite Hbraces. split; [done|]. split; [done|].
    intros (t & Ht & Hne & _). by injection Ht as <-.
  - split; [done|]. split.
    + destruct (JSON_parse (String c t)) eqn:Hparse; [done|].
      intros _. by exists (String c t).
    + intros (t' & Ht' & _ & Hnone). injection Ht' as <-. by rewrite Hnone.
  - rewrite Hbraces. split; [done|]. split; [done|].
    intros (t & Ht & _). done.
Qed.

Lemma analyzeImage_empty_text_witness :
  let env := Scenario.remote "" 0 None in
  let result := outcome (analyzeImage MiniJSON.parse env Scenario.teapot_image) in
  (falsy (text {| text := Some "" |}) = true ->
     result = Fulfilled (JObject [])
     /\ get_property (JObject []) "objectName" = inr None
     /\ get_property (JObject []) "personality" = inr None
     /\ get_property (JObject []) "animationPrompt" = inr None)
  /\ (result = Rejected (Error (Some "Failed to parse analysis results")) <->
      exists t, text {| text := Some "" |} = Some t /\ t <> "" /\ MiniJSON.parse t = None).
Proof.
  apply (analyzeImage_empty_text MiniJSON.parse (Scenario.remote "" 0 None)
           Scenario.teapot_image {| text := Some "" |}).
  - reflexivity.
  - reflexivity.
Defined.

(** C2 fails: on a response that is valid JSON without [animationPrompt],
    [analyzeImage] fulfils with the parsed object, and the controller moves to
    [generating] and calls the generator with an undefined prompt. *)
Lemma analyzeImage_accepts_missing_prompt :
  let env := Scenario.remote Scenario.promptless_json 0 (Some Scenario.video_link) in
  let result := outcome (analyzeImage MiniJSON.parse env Scenario.teapot_image) in
  let w := run_events initial (Start Scenario.teapot_image :: analyze_settles 0 result) in
  MiniJSON.parse Scenario.promptless_json = Some Scenario.promptless
  /\ get_property Scenario.promptless "animationPrompt" = inr None
  /\ persona_details Scenario.promptless = None
  /\ result = Fulfilled Scenario.promptless
  /\ status (state w) = Status.generating
  /\ calls w = [CallAnalyzeImage 0 Scenario.teapot_image;
                CallGenerateAnimation 0 Scenario.teapot_image None].
Proof. vm_compute. repeat split; reflexivity. Qed.

(** C2, as the code has it: [analyzeImage] checks no field.  Whenever the
    response text is non-empty and [JSON.parse] accepts it, the adapter
    fulfils with the parsed value as it is, whichever fields it has.  A run
    that awaits it then moves to [generating], keeps the value as persona and
    calls the generator with the value's [animationPrompt] - an undefined
    prompt when the value lacks the field. *)
Theorem analyzeImage_returns_parsed_value
    (JSON_parse : string -> option JSValue) (env : Remote) (base64 t : string)
    (response : GenerateContentResponse) (v : JSValue) :
  generateContent env (image_data base64) = Fulfilled response ->
  text response = Some t ->
  t <> "" ->
  JSON_parse t = Some v ->
  let result := outcome (analyzeImage JSON_parse env base64) in
  result = Fulfilled v
  /\ forall (w : World) (r : nat) (prompt : option JSValue),
       get_property v "animationPrompt" = inr prompt ->
       runs w !! r = Some (AwaitAnalyze base64) ->
       let w' := run_events w (analyze_settles r result) in
       status (state w') = Status.generating
       /\ persona w' = Some v
       /\ runs w' !! r = Some (AwaitGenerate base64 v)
       /\ calls w' = calls w ++ [CallGenerateAnimation r base64 prompt].
Proof.
  intros Hanswer Htext Hne Hparse result.
  assert (result = Fulfilled v) as Hresult.
  { unfold result. rewrite (analyzeImage_answered _ _ _ _ Hanswer).
    unfold outcome, snd. rewrite Htext.
    destruct t as [|c t]; [done|]. simpl. by rewrite Hparse. }
  split; [done|].
  intros w r prompt Hprompt Hawait w'.
  unfold w'. rewrite Hresult. simpl. rewrite Hawait.
  unfold processImage_analyzed. rewrite Hprompt. simpl.
  repeat split; try reflexivity. apply lookup_insert_eq.
Qed.

Lemma analyzeImage_returns_parsed_value_witness :
  let w := step initial (Start Scenario.teapot_image) in
  (let env := Scenario.remote Scenario.teapot_json 0 (Some Scenario.video_link) in
   let result := outcome (analyzeImage MiniJSON.parse env Scenario.teapot_image) in
   let w' := run_events w (analyze_settles 0 result) in
   result = Fulfilled Scenario.teapot
   /\ status (state w') = Status.generating
   /\ persona w' = Some Scenario.teapot
   /\ runs w' !! 0 = Some (AwaitGenerate Scenario.teapot_image Scenario.teapot)
   /\ calls w' = calls w
                 ++ [CallGenerateAnimation 0 Scenario.teapot_image
                       (Some (JString "teapot wiggles its spout and winks"))])
  /\ (let env := Scenario.remote Scenario.promptless_json 0
                   (Some Scenario.video_link) in
      let result := outcome (analyzeImage MiniJSON.parse env Scenario.teapot_image) in
      let w' := run_events w (analyze_settles 0 result) in
      result = Fulfilled Scenario.promptless
      /\ status (state w') = Status.generating
      /\ persona w' = Some Scenario.promptless
      /\ runs w' !! 0
         = Some (AwaitGenerate Scenario.teapot_image Scenario.promptless)
      /\ calls w' = calls w ++ [CallGenerateAnimation 0 Scenario.teapot_image None]).
Proof.
  intros w. split.
  - destruct (analyzeImage_returns_parsed_value MiniJSON.parse
                (Scenario.remote Scenario.teapot_json 0 (Some Scenario.video_link))
                Scenario.teapot_image Scenario.teapot_json
                {| text := Some Scenario.teapot_json |} Scenario.teapot)
      as [Hresult Hrun].
    + reflexivity.
    + reflexivity.
    + discriminate.
    + vm_compute. reflexivity.
    + split; [exact Hresult|].
      apply (Hrun w 0 (Some (JString "teapot wiggles its spout and winks"))).
      * reflexivity.
      * vm_compute. reflexivity.
  - destruct (analyzeImage_returns_parsed_value MiniJSON.parse
                (Scenario.remote Scenario.promptless_json 0
                   (Some Scenario.video_link))
                Scenario.teapot_image Scenario.promptless_json
                {| text := Some Scenario.promptless_json |} Scenario.promptless)
      as [Hresult Hrun].
    + reflexivity.
    + reflexivity.
    + discriminate.
    + vm_compute. reflexivity.
    + split; [exact Hresult|].
      apply (Hrun w 0 None).
      * reflexivity.
      * vm_compute. reflexivity.
Defined.

(** ** The image data the adapters send *)

Lemma image_sent_analyzeImage
    (JSON_parse : string -> option JSValue) (env : Remote) (base64 : string) :
  image_sent (trace (analyzeImage JSON_parse env base64)) = [image_data base64].
Proof.
  unfold analyzeImage, bind, await.
  destruct (generateContent env (image_data base64)) as [response| |]; [|done|done].
  unfold JSON_parse_or_throw.
  by destruct (JSON_parse (or_else (text response) "{}")).
Qed.

Lemma image_sent_generateAnimation
    (env : Remote) (fuel : nat) (base64 : string) (prompt : option JSValue) :
  image_sent (trace (generateAnimation env fuel base64 prompt)) = [image_data base64].
Proof.
  unfold generateAnimation, bind at 1, await at 1.
  destruct (generateVideos env prompt (image_data base64)) as [first| |]; [|done|done].
  pose proof (image_sent_poll env fuel 0 first) as Hpoll.
  unfold bind at 1.
  destruct (poll env fuel 0 first) as [t [last| |]]; simpl in Hpoll;
    [|by simpl; rewrite Hpoll..].
  destruct (falsy (download_link last)).
  { simpl. by rewrite app_nil_r, Hpoll. }
  unfold bind, await.
  destruct (fetch env _) as [videoResponse| |];
    [destruct (blob videoResponse)|..];
    simpl; rewrite image_sent_app, Hpoll; reflexivity.
Qed.

(** C10: both adapters send as image data [base64Image.split(',')[1]].  For
    a data URL, [header,payload] with one comma, that is the payload after
    the comma.  For an input without a comma it is [undefined], and the
    adapter raises nothing of its own: the request goes out without image
    data, and when the remote answers it well the adapter fulfils as for any
    other input. *)
Theorem adapters_send_data_after_comma
    (JSON_parse : string -> option JSValue) (env : Remote) (fuel : nat)
    (prompt : option JSValue) :
  (forall header payload,
     has_comma header = false -> has_comma payload = false ->
     image_sent (trace (analyzeImage JSON_parse env (header +:+ "," +:+ payload)))
     = [Some payload]
     /\ image_sent (trace (generateAnimation env fuel (header +:+ "," +:+ payload) prompt))
        = [Some payload])
  /\ (forall s,
        has_comma s = false ->
        image_data s = None
        /\ image_sent (trace (analyzeImage JSON_parse env s)) = [None]
        /\ image_sent (trace (generateAnimation env fuel s prompt)) = [None]
        /\ (forall response v,
              generateContent env None = Fulfilled response ->
              JSON_parse (or_else (text response) "{}") = Some v ->
              analyzeImage JSON_parse env s
              = ([GenerateContent None], Fulfilled v))
        /\ (forall m first last link videoResponse b,
              generateVideos env prompt None = Fulfilled first ->
              (forall j, j < m ->
                 exists op, observed env 0 first j = Fulfilled op
                            /\ operation_done op = false) ->
              observed env 0 first m = Fulfilled last ->
              operation_done last = true ->
              download_link last = Some link ->
              link <> "" ->
              fetch env (link +:+ "&key=" +:+ interpolate (API_KEY env))
              = Fulfilled videoResponse ->
              blob videoResponse = Fulfilled b ->
              m <= fuel ->
              generateAnimation env fuel s prompt
              = (GenerateVideos prompt None
                 :: status_checks 0 m
                 ++ [Fetch (link +:+ "&key=" +:+ interpolate (API_KEY env));
                     ReadBlob; CreateObjectURL b],
                 Fulfilled (createObjectURL env b)))).
Proof.
  split.
  - intros header payload Hheader Hpayload.
    rewrite image_sent_analyzeImage, image_sent_generateAnimation.
    by rewrite image_data_data_url.
  - intros s Hs.
    pose proof (image_data_no_comma s Hs) as Hdata.
    rewrite image_sent_analyzeImage, image_sent_generateAnimation, Hdata.
    repeat split.
    + intros response v Hanswer Hparse.
      unfold analyzeImage, bind, await. rewrite Hdata, Hanswer.
      unfold JSON_parse_or_throw. by rewrite Hparse.
    + intros m first last link videoResponse b Hsubmit Hrun Hlast Hdone Hlink Hne
        Hfetch Hblob Hfuel.
      rewrite <- Hdata in Hsubmit |- *.
      by apply (generateAnimation_fetches env m fuel s prompt first last link
                  videoResponse b).
Qed.

Lemma adapters_send_data_after_comma_witness :
  let env := Scenario.remote Scenario.teapot_json 1 (Some Scenario.video_link) in
  let prompt := Some (JString "teapot wiggles its spout and winks") in
  (image_sent (trace (analyzeImage MiniJSON.parse env
                        ("data:image/jpeg;base64" +:+ "," +:+ "/9j/4AAQSkZJRgABAQ==")))
   = [Some "/9j/4AAQSkZJRgABAQ=="]
   /\ image_sent (trace (generateAnimation env 5
                           ("data:image/jpeg;base64" +:+ "," +:+ "/9j/4AAQSkZJRgABAQ==")
                           prompt))
      = [Some "/9j/4AAQSkZJRgABAQ=="])
  /\ image_data "not a data URL" = None
  /\ analyzeImage MiniJSON.parse env "not a data URL"
     = ([GenerateContent None], Fulfilled Scenario.teapot)
  /\ generateAnimation env 5 "not a data URL" prompt
     = (GenerateVideos prompt None
        :: status_checks 0 2
        ++ [Fetch (Scenario.video_link +:+ "&key=" +:+ "KEY");
            ReadBlob; CreateObjectURL Scenario.video_bytes],
        Fulfilled Scenario.object_url).
Proof.
  intros env prompt.
  destruct (adapters_send_data_after_comma MiniJSON.parse env 5 prompt)
    as [Hurl Hplain].
  split.
  - apply Hurl; reflexivity.
  - destruct (Hplain "not a data URL" eq_refl)
      as (Hdata & _ & _ & Hanalyze & Hgenerate).
    split; [exact Hdata|]. split.
    + apply (Hanalyze {| text := Some Scenario.teapot_json |}).
      * reflexivity.
      * vm_compute. reflexivity.
    + apply (Hgenerate 2 Scenario.running (Scenario.finished (Some Scenario.video_link))
               Scenario.video_link {| blob := Fulfilled Scenario.video_bytes |}
               Scenario.video_bytes).
      * reflexivity.
      * intros j Hj. exists Scenario.running. split; [|reflexivity].
        destruct j as [|[|j]]; [reflexivity..|lia].
      * reflexivity.
      * reflexivity.
      * reflexivity.
      * discriminate.
      * vm_compute. reflexivity.
      * reflexivity.
      * lia.
Defined.


(** ** The controller: runs and generator calls *)

Lemma generator_calls_app (r : nat) (cs : list Call) (c : Call) :
  generator_calls r (cs ++ [c])
  = generator_calls r cs ++ (if is_generator_call r c then [c] else []).
Proof. unfold generator_calls. by rewrite List.filter_app. Qed.

Lemma generator_calls_other (r r' : nat) (cs : list Call) (base64 : string)
    (prompt : option JSValue) :
  r' <> r ->
  generator_calls r (cs ++ [CallGenerateAnimation r' base64 prompt])
  = generator_calls r cs.
Proof.
  intros Hne. rewrite generator_calls_app. simpl.
  destruct (Nat.eqb_spec r' r); [done|]. by rewrite app_nil_r.
Qed.

Lemma generator_calls_analyze (r r' : nat) (cs : list Call) (base64 : string) :
  generator_calls r (cs ++ [CallAnalyzeImage r' base64]) = generator_calls r cs.
Proof. rewrite generator_calls_app. simpl. by rewrite app_nil_r. Qed.

Lemma consistent_initial : consistent initial.
Proof. repeat split; intros; simpl in *; done. Qed.

Lemma consistent_catch (r : nat) (err : JSError) (w : World) :
  consistent w -> consistent (processImage_catch r err w).
Proof.
  intros (Hlt & Hnew & Hwait). repeat split; simpl.
  - intros r' k [_ Hk]%lookup_delete_Some. by eapply Hlt.
  - done.
  - intros r' b [_ Hk]%lookup_delete_Some. by eapply Hwait.
Qed.

Lemma consistent_step (w : World) (ev : Event) :
  consistent w -> consistent (step w ev).
Proof.
  intros Hw. pose proof Hw as (Hlt & Hnew & Hwait).
  destruct ev as [base64|r analysis|r err|r video|r err|]; simpl.
  - (* Start *)
    repeat split; simpl.
    + intros r k. destruct (decide (next_run w = r)) as [<-|Hne]; [lia|].
      rewrite lookup_insert_ne by done. intros Hk%Hlt. lia.
    + intros r Hr. rewrite generator_calls_analyze. apply Hnew. lia.
    + intros r b. rewrite generator_calls_analyze.
      destruct (decide (next_run w = r)) as [<-|Hne]; [intros _; by apply Hnew|].
      rewrite lookup_insert_ne by done. apply Hwait.
  - (* AnalyzeFulfilled *)
    destruct (runs w !! r) as [[base64|base64 a]|] eqn:Hr; [|done..].
    unfold processImage_analyzed.
    destruct (get_property analysis "animationPrompt") as [err|prompt].
    + apply consistent_catch. repeat split; simpl; done.
    + pose proof (Hlt _ _ Hr) as Hrlt. repeat split; simpl.
      * intros r' k. destruct (decide (r = r')) as [<-|Hne]; [done|].
        rewrite lookup_insert_ne by done. apply Hlt.
      * intros r' Hr'. rewrite generator_calls_other by lia. by apply Hnew.
      * intros r' b. destruct (decide (r = r')) as [<-|Hne].
        { by rewrite lookup_insert_eq. }
        rewrite lookup_insert_ne, generator_calls_other by done. apply Hwait.
  - (* AnalyzeRejected *)
    destruct (runs w !! r) as [[base64|base64 a]|]; [|done..].
    by apply consistent_catch.
  - (* GenerateFulfilled *)
    destruct (runs w !! r) as [[base64|base64 a]|]; [done| |done].
    repeat split; simpl.
    + intros r' k [_ Hk]%lookup_delete_Some. by eapply Hlt.
    + done.
    + intros r' b [_ Hk]%lookup_delete_Some. by eapply Hwait.
  - (* GenerateRejected *)
    destruct (runs w !! r) as [[base64|base64 a]|]; [done| |done].
    by apply consistent_catch.
  - (* Reset *)
    repeat split; simpl; done.
Qed.

Lemma consistent_run_events (evs : list Event) :
  forall w, consistent w -> consistent (run_events w evs).
Proof.
  induction evs as [|ev evs IH]; intros w Hw; [done|].
  simpl. apply IH. by apply consistent_step.
Qed.

Lemma returned_step (r : nat) (w : World) (ev : Event) :
  returned_without_generating r w -> returned_without_generating r (step w ev).
Proof.
  intros (Hgone & Hlt & Hcalls).
  destruct ev as [base64|r' analysis|r' err|r' video|r' err|]; simpl.
  - repeat split; simpl.
    + rewrite lookup_insert_ne by lia. done.
    + lia.
    + by rewrite generator_calls_analyze.
  - destruct (runs w !! r') as [[base64|base64 a]|] eqn:Hr'; [|done..].
    assert (r' <> r) as Hne by (intros ->; congruence).
    unfold processImage_analyzed.
    destruct (get_property analysis "animationPrompt") as [err|prompt].
    + repeat split; simpl; [|done..]. by rewrite lookup_delete_ne.
    + repeat split; simpl; [|done|].
      * by rewrite lookup_insert_ne.
      * by rewrite generator_calls_other.
  - destruct (runs w !! r') as [[base64|base64 a]|] eqn:Hr'; [|done..].
    assert (r' <> r) as Hne by (intros ->; congruence).
    repeat split; simpl; [|done..]. by rewrite lookup_delete_ne.
  - destruct (runs w !! r') as [[base64|base64 a]|] eqn:Hr'; [done| |done].
    assert (r' <> r) as Hne by (intros ->; congruence).
    repeat split; simpl; [|done..]. by rewrite lookup_delete_ne.
  - destruct (runs w !! r') as [[base64|base64 a]|] eqn:Hr'; [done| |done].
    assert (r' <> r) as Hne by (intros ->; congruence).
    repeat split; simpl; [|done..]. by rewrite lookup_delete_ne.
  - repeat split; simpl; done.
Qed.

Lemma returned_run_events (r : nat) (evs : list Event) :
  forall w, returned_without_generating r w ->
            returned_without_generating r (run_events w evs).
Proof.
  induction evs as [|ev evs IH]; intros w Hw; [done|].
  simpl. apply IH. by apply returned_step.
Qed.

(** C4: in any world the controller can reach, when the analyzer call of a
    run rejects, that run returns through its [catch] block; whatever happens
    afterwards, the call log holds no call of [generateAnimation] by that
    run. *)
Theorem analyzer_failure_skips_generator
    (before after : list Event) (r : nat) (base64 : string) (err : JSError) :
  let w := run_events initial before in
  runs w !! r = Some (AwaitAnalyze base64) ->
  let w' := run_events w (AnalyzeRejected r err :: after) in
  generator_calls r (calls w') = []
  /\ runs w' !! r = None.
Proof.
  intros w Hawait w'.
  assert (consistent w) as (Hlt & Hnew & Hwait)
    by (apply consistent_run_events, consistent_initial).
  assert (returned_without_generating r w') as (Hgone & _ & Hcalls).
  { unfold w'. simpl. apply returned_run_events. rewrite Hawait.
    repeat split; simpl.
    - apply lookup_delete_eq.
    - by eapply Hlt.
    - by eapply Hwait. }
  done.
Qed.

Lemma analyzer_failure_skips_generator_witness :
  let w' := run_events (run_events initial [Start Scenario.teapot_image])
              [AnalyzeRejected 0 (Error (Some "quota exceeded"));
               AnalyzeFulfilled 0 Scenario.teapot;
               Start Scenario.teapot_image;
               GenerateFulfilled 0 Scenario.object_url] in
  generator_calls 0 (calls w') = [] /\ runs w' !! 0 = None.
Proof.
  apply (analyzer_failure_skips_generator
           [Start Scenario.teapot_image]
           [AnalyzeFulfilled 0 Scenario.teapot; Start Scenario.teapot_image;
            GenerateFulfilled 0 Scenario.object_url]
           0 Scenario.teapot_image (Error (Some "quota exceeded"))).
  vm_compute. reflexivity.
Defined.

(** ** The controller: [processImage] and [reset] *)

Lemma runs_processImage (base64 : string) (w : World) :
  runs (processImage base64 w) !! next_run w = Some (AwaitAnalyze base64).
Proof. simpl. apply lookup_insert_eq. Qed.

(** C7: from any world, a call of [processImage] followed by the fulfilment
    of its analyzer call with a persona (any value but [null]) and by the
    fulfilment of its generator call leaves the controller [completed], with
    the image, the video the generator returned, and as persona the very value
    the analyzer returned - hence the same [objectName]. *)
Theorem successful_run_completes
    (w : World) (base64 video : string) (analysis : JSValue) :
  analysis <> JNull ->
  let r := next_run w in
  let w' := run_events w [Start base64; AnalyzeFulfilled r analysis;
                          GenerateFulfilled r video] in
  status (state w') = Status.completed
  /\ videoUrl (state w') = Some video
  /\ imageUrl (state w') = Some base64
  /\ persona w' = Some analysis
  /\ (forall p, persona w' = Some p ->
        get_property p "objectName" = get_property analysis "objectName")
  /\ runs w' !! r = None.
Proof.
  intros Hpersona r w'.
  assert (exists prompt, get_property analysis "animationPrompt" = inr prompt)
    as [prompt Hprompt] by (destruct analysis; simpl; eauto; done).
  assert (step (step w (Start base64)) (AnalyzeFulfilled r analysis)
          = suspend r (AwaitGenerate base64 analysis)
              (invoke (CallGenerateAnimation r base64 prompt)
                 (setState (fun prev =>
                    {| status := Status.generating; imageUrl := imageUrl prev;
                       videoUrl := videoUrl prev; description := description prev;
                       error := error prev |})
                    (setPersona (Some analysis) (processImage base64 w)))))
    as Hanalyzed.
  { unfold step. unfold r. rewrite runs_processImage.
    unfold processImage_analyzed. by rewrite Hprompt. }
  unfold w'.
  change (run_events w [Start base64; AnalyzeFulfilled r analysis;
                        GenerateFulfilled r video])
    with (step (step (step w (Start base64)) (AnalyzeFulfilled r analysis))
            (GenerateFulfilled r video)).
  rewrite Hanalyzed.
  unfold step. simpl runs. rewrite lookup_insert_eq.
  simpl. repeat split.
  - intros p [= <-]. reflexivity.
  - apply lookup_delete_eq.
Qed.

Lemma successful_run_completes_witness :
  let w' := run_events initial [Start Scenario.teapot_image;
                                AnalyzeFulfilled 0 Scenario.teapot;
                                GenerateFulfilled 0 Scenario.object_url] in
  status (state w') = Status.completed
  /\ videoUrl (state w') = Some Scenario.object_url
  /\ imageUrl (state w') = Some Scenario.teapot_image
  /\ persona w' = Some Scenario.teapot
  /\ (forall p, persona w' = Some p ->
        get_property p "objectName" = get_property Scenario.teapot "objectName")
  /\ runs w' !! 0 = None.
Proof.
  apply (successful_run_completes initial Scenario.teapot_image
           Scenario.object_url Scenario.teapot).
  discriminate.
Defined.

(** C8: whatever the world - analyzing, generating, completed or in error -
    [reset] leaves the state [{ status: 'idle' }], without image, video,
    description or error message, and the persona [null]. *)
Theorem reset_clears (w : World) :
  state (step w Reset) = cleared
  /\ status (state (step w Reset)) = Status.idle
  /\ imageUrl (state (step w Reset)) = None
  /\ videoUrl (state (step w Reset)) = None
  /\ persona (step w Reset) = None.
Proof.
  unfold step, reset, setPersona, setState, cleared. simpl.
  repeat split.
Qed.

(** C1 fails: a generator result that arrives after [reset] takes the
    controller from [idle] to [completed]. *)
Lemma stale_result_leaves_idle :
  let w := run_events initial [Start Scenario.teapot_image;
                               AnalyzeFulfilled 0 Scenario.teapot; Reset] in
  let w' := step w (GenerateFulfilled 0 Scenario.object_url) in
  status (state w) = Status.idle
  /\ status (state w') = Status.completed
  /\ videoUrl (state w') = Some Scenario.object_url.
Proof. vm_compute. repeat split; reflexivity. Qed.

(** C1, as the code has it: [reset] returns the controller to [idle] at
    once but leaves a run that awaits the generator in flight.  When that
    run's generator call settles after the reset, its continuation updates the
    cleared state: a result makes it [completed] with the video and nothing
    else (no image, persona still [null]); a failure makes it [error] with the
    failure's message. *)
Theorem reset_keeps_run_in_flight
    (w : World) (r : nat) (base64 video : string) (analysis : JSValue)
    (err : JSError) :
  runs w !! r = Some (AwaitGenerate base64 analysis) ->
  let w1 := step w Reset in
  state w1 = cleared
  /\ runs w1 !! r = Some (AwaitGenerate base64 analysis)
  /\ state (step w1 (GenerateFulfilled r video))
     = {| status := Status.completed; imageUrl := None; videoUrl := Some video;
          description := None; error := None |}
  /\ persona (step w1 (GenerateFulfilled r video)) = None
  /\ state (step w1 (GenerateRejected r err))
     = {| status := Status.error; imageUrl := None; videoUrl := None;
          description := None;
          error := Some (or_else (message err) "Something went wrong") |}.
Proof.
  intros Hawait w1.
  assert (runs w1 !! r = Some (AwaitGenerate base64 analysis)) as Hkept by exact Hawait.
  split; [reflexivity|]. split; [exact Hkept|].
  unfold step at 1 2 3. rewrite Hkept. repeat split.
Qed.

Lemma reset_keeps_run_in_flight_witness :
  let w := run_events initial [Start Scenario.teapot_image;
                               AnalyzeFulfilled 0 Scenario.teapot] in
  let w1 := step w Reset in
  state w1 = cleared
  /\ runs w1 !! 0 = Some (AwaitGenerate Scenario.teapot_image Scenario.teapot)
  /\ state (step w1 (GenerateFulfilled 0 Scenario.object_url))
     = {| status := Status.completed; imageUrl := None;
          videoUrl := Some Scenario.object_url;
          description := None; error := None |}
  /\ persona (step w1 (GenerateFulfilled 0 Scenario.object_url)) = None
  /\ state (step w1 (GenerateRejected 0 (Error None)))
     = {| status := Status.error; imageUrl := None; videoUrl := None;
          description := None;
          error := Some (or_else (message (Error None)) "Something went wrong") |}.
Proof.
  apply (reset_keeps_run_in_flight
           (run_events initial [Start Scenario.teapot_image;
                                AnalyzeFulfilled 0 Scenario.teapot])
           0 Scenario.teapot_image Scenario.object_url Scenario.teapot (Error None)).
  vm_compute. reflexivity.
Defined.

(** C5 fails: [processImage] called while a run is in flight begins a second
    run beside the first. *)
Lemma processImage_overlaps :
  let w := run_events initial [Start Scenario.teapot_image;
                               AnalyzeFulfilled 0 Scenario.teapot] in
  let w' := step w (Start "data:image/png;base64,iVBORw0KGgo=") in
  status (state w) = Status.generating
  /\ runs w' !! 0 = Some (AwaitGenerate Scenario.teapot_image Scenario.teapot)
  /\ runs w' !! 1 = Some (AwaitAnalyze "data:image/png;base64,iVBORw0KGgo=")
  /\ calls w' = calls w ++ [CallAnalyzeImage 1 "data:image/png;base64,iVBORw0KGgo="]
  /\ status (state w') = Status.analyzing.
Proof. vm_compute. repeat split; reflexivity. Qed.

(** C5, as the code has it: [processImage] has no guard.  Called in any
    state it begins a new run - the state becomes [analyzing] with the new
    image, the analyzer is called, and the runs already in flight stay in
    flight.  Only the view holds a start back: it wires [processImage] to the
    capture and upload controls while the status is [idle] and not
    otherwise. *)
Theorem processImage_always_starts (w : World) (base64 : string) (hasKey : bool) :
  let w' := step w (Start base64) in
  state w' = {| status := Status.analyzing; imageUrl := Some base64;
                videoUrl := None; description := None; error := None |}
  /\ runs w' !! next_run w = Some (AwaitAnalyze base64)
  /\ (forall r, r <> next_run w -> runs w' !! r = runs w !! r)
  /\ calls w' = calls w ++ [CallAnalyzeImage (next_run w) base64]
  /\ (status (state w) <> Status.idle -> offers_start hasKey w = false)
  /\ (status (state w) = Status.idle -> offers_start hasKey w = hasKey).
Proof.
  intros w'. split; [reflexivity|]. split; [apply runs_processImage|].
  split; [|split; [reflexivity|]].
  - intros r Hr. simpl. by rewrite lookup_insert_ne.
  - unfold offers_start. split.
    + intros Hbusy. destruct hasKey, (status (state w)); done.
    + intros ->. by destruct hasKey.
Qed.

Lemma processImage_always_starts_witness :
  let w := run_events initial [Start Scenario.teapot_image] in
  let w' := step w (Start Scenario.teapot_image) in
  runs w' !! 0 = Some (AwaitAnalyze Scenario.teapot_image)
  /\ runs w' !! 1 = Some (AwaitAnalyze Scenario.teapot_image)
  /\ offers_start true w = false.
Proof.
  intros w w'.
  destruct (processImage_always_starts w Scenario.teapot_image true)
    as (_ & Hnew & Hold & _ & Hview & _).
  split; [|split].
  - unfold w'. rewrite (Hold 0); [vm_compute; reflexivity|discriminate].
  - exact Hnew.
  - apply Hview. discriminate.
Defined.

(** ** Whole runs *)

(** The teapot: analysis, three rounds of polling, the video. *)
Example pipeline_teapot :
  let w := pipeline MiniJSON.parse
             (Scenario.remote Scenario.teapot_json 3 (Some Scenario.video_link))
             10 Scenario.teapot_image initial in
  state w = {| status := Status.completed;
               imageUrl := Some Scenario.teapot_image;
               videoUrl := Some Scenario.object_url;
               description := None; error := None |}
  /\ (forall p, persona w = Some p ->
        get_property p "objectName" = inr (Some (JString "teapot")))
  /\ runs w = ∅.
Proof.
  vm_compute. split; [reflexivity|]. split; [|reflexivity].
  intros p [= <-]. reflexivity.
Qed.

(** An answer that is not JSON ends the run in [error], before any generator
    call. *)
Example pipeline_not_json :
  let w := pipeline MiniJSON.parse
             (Scenario.remote "Sorry, I cannot help" 0 (Some Scenario.video_link))
             10 Scenario.teapot_image initial in
  status (state w) = Status.error
  /\ error (state w) = Some "Failed to parse analysis results"
  /\ calls w = [CallAnalyzeImage 0 Scenario.teapot_image].
Proof. vm_compute. repeat split; reflexivity. Qed.

(** A job that ends without a link ends the run in [error]. *)
Example pipeline_no_link :
  let w := pipeline MiniJSON.parse (Scenario.remote Scenario.teapot_json 1 None)
             10 Scenario.teapot_image initial in
  status (state w) = Status.error
  /\ error (state w) = Some "Video generation failed - no URI returned".
Proof. vm_compute. repeat split; reflexivity. Qed.

(** The answer [null] is valid JSON; reading its [animationPrompt] throws,
    and the run ends in [error] with the persona set to [null]'s value. *)
Example pipeline_null :
  let w := pipeline MiniJSON.parse (Scenario.remote "null" 0 None)
             10 Scenario.teapot_image initial in
  status (state w) = Status.error
  /\ persona w = Some JNull
  /\ calls w = [CallAnalyzeImage 0 Scenario.teapot_image].
Proof. vm_compute. repeat split; reflexivity. Qed.

(** The text of the teapot answer parses to a value of the persona shape. *)
Example persona_details_teapot :
  (MiniJSON.parse Scenario.teapot_json ≫= persona_details)
  = Some {| objectName := "teapot";
            personality := "a sassy grandma who judges your tea choices";
            animationPrompt := "teapot wiggles its spout and winks" |}.
Proof. vm_compute. reflexivity. Qed.

(** * Further properties *)

(** ** [split(',')] and the image data *)

Lemma split_comma_cons (s : string) :
  exists piece pieces, split_comma s = piece :: pieces.
Proof.
  induction s as [|c s (piece & pieces & IH)]; simpl; [by eauto|].
  destruct (Ascii.eqb c ","); [by eauto|]. rewrite IH. eauto.
Qed.

Lemma has_comma_split (s : string) :
  has_comma s = true ->
  exists header rest, has_comma header = false /\ s = header +:+ "," +:+ rest.
Proof.
  induction s as [|c s IH]; simpl; [done|].
  destruct (Ascii.eqb_spec c ",") as [->|Hc]; simpl.
  - intros _. by exists EmptyString, s.
  - intros (header & rest & Hheader & ->)%IH.
    exists (String c header), rest. split; [|done].
    simpl. destruct (Ascii.eqb_spec c ","); done.
Qed.

(** The first piece of a split: free of commas, and followed in the input by
    nothing or by a comma. *)
Lemma split_comma_head (s : string) :
  exists piece pieces,
    split_comma s = piece :: pieces
    /\ has_comma piece = false
    /\ (s = piece \/ exists rest, s = piece +:+ "," +:+ rest).
Proof.
  induction s as [|c s (piece & pieces & IH & Hpiece & Hs)]; simpl.
  - exists EmptyString, []. auto.
  - destruct (Ascii.eqb_spec c ",") as [->|Hc].
    + exists EmptyString, (split_comma s). split; [done|]. split; [done|].
      right. by exists s.
    + rewrite IH. exists (String c piece), pieces. split; [done|]. split.
      * simpl. destruct (Ascii.eqb_spec c ","); done.
      * destruct Hs as [->|[rest ->]]; [by left|right; by exists rest].
Qed.

(** X1: the image data is [undefined] exactly for an input without a
    comma. *)
Theorem image_data_None_iff (s : string) :
  image_data s = None <-> has_comma s = false.
Proof.
  split; [|apply image_data_no_comma].
  destruct (has_comma s) eqn:Hs; [|done].
  destruct (has_comma_split s Hs) as (header & rest & Hheader & ->).
  unfold image_data. rewrite split_comma_app by done.
  by destruct (split_comma_cons rest) as (piece & pieces & ->).
Qed.

(** X2: the image data, when there is one, is the text between the first
    comma and the second (or the end of the input when there is no second),
    and holds no comma itself. *)
Theorem image_data_Some_iff (s data : string) :
  image_data s = Some data <->
  exists header,
    has_comma header = false /\ has_comma data = false
    /\ (s = header +:+ "," +:+ data
        \/ exists rest, s = header +:+ "," +:+ data +:+ "," +:+ rest).
Proof.
  split.
  - intros Hdata.
    destruct (has_comma s) eqn:Hs;
      [|by rewrite image_data_no_comma in Hdata].
    destruct (has_comma_split s Hs) as (header & tail & Hheader & ->).
    exists header. split; [done|].
    unfold image_data in Hdata. rewrite split_comma_app in Hdata by done.
    destruct (split_comma_head tail) as (piece & pieces & Hsplit & Hpiece & Htail).
    rewrite Hsplit in Hdata. injection Hdata as <-. split; [done|].
    destruct Htail as [->|[rest ->]]; [by left|right; by exists rest].
  - intros (header & Hheader & Hdata & [->|[rest ->]]).
    + by apply image_data_data_url.
    + by apply image_data_second_comma.
Qed.

Lemma join_comma_cons (piece : string) (pieces : list string) :
  pieces <> [] ->
  join_comma (piece :: pieces) = piece +:+ "," +:+ join_comma pieces.
Proof. by destruct pieces. Qed.

(** X3: [split(',')] loses nothing: joining the pieces with commas gives the
    input back, and there is one piece more than there are commas. *)
Theorem split_comma_join (s : string) :
  join_comma (split_comma s) = s
  /\ length (split_comma s) = S (count_commas s).
Proof.
  induction s as [|c s [IHjoin IHlength]]; simpl; [done|].
  destruct (split_comma_cons s) as (piece & pieces & Hsplit).
  destruct (Ascii.eqb c ",") eqn:Hc.
  - apply Ascii.eqb_eq in Hc as ->. split.
    + rewrite join_comma_cons by (by rewrite Hsplit). by rewrite IHjoin.
    + simpl. by rewrite IHlength.
  - rewrite Hsplit in *. split; [|done].
    rewrite <- IHjoin. by destruct pieces.
Qed.

(** ** The adapters under failure *)

(** X4: [analyzeImage] makes exactly one request, whatever the answer.  A
    rejected call is passed on unchanged, a call that never answers leaves the
    promise pending, and a value it returns is always what [JSON.parse] made
    of the response text (of ['{}'] when the text is missing or empty). *)
Theorem analyzeImage_single_request
    (JSON_parse : string -> option JSValue) (env : Remote) (base64 : string) :
  let run := analyzeImage JSON_parse env base64 in
  trace run = [GenerateContent (image_data base64)]
  /\ (forall e, generateContent env (image_data base64) = Rejected e ->
        outcome run = Rejected e)
  /\ (generateContent env (image_data base64) = Pending -> outcome run = Pending)
  /\ (forall v, outcome run = Fulfilled v ->
        exists response,
          generateContent env (image_data base64) = Fulfilled response
          /\ JSON_parse (or_else (text response) "{}") = Some v).
Proof.
  intros run. unfold run, analyzeImage, bind, await.
  destruct (generateContent env (image_data base64)) as [response|e|] eqn:Hanswer.
  - unfold JSON_parse_or_throw.
    destruct (JSON_parse (or_else (text response) "{}")) as [v|] eqn:Hparse; simpl.
    + repeat split; try done. intros v' [= <-]. by exists response.
    + repeat split; done.
  - simpl. repeat split; try done. by intros e' [= <-].
  - simpl. repeat split; done.
Qed.

Section PollingFailures.

Variable env : Remote.

Lemma status_checks_S (k n : nat) :
  status_checks k (S n)
  = SetTimeout 8000 :: GetVideosOperation k :: status_checks (S k) n.
Proof. reflexivity. Qed.

(** Whatever the remote does, the loop's trace is a run of delayed status
    requests numbered from [k], no longer than the fuel, and the handle it
    leaves with is done. *)
Lemma poll_shape (fuel : nat) :
  forall k operation,
    exists n,
      n <= fuel
      /\ trace (poll env fuel k operation) = status_checks k n
      /\ forall last, outcome (poll env fuel k operation) = Fulfilled last ->
                      operation_done last = true.
Proof.
  induction fuel as [|fuel IH]; intros k operation; simpl.
  - exists 0. destruct (operation_done operation) eqn:Hdone; simpl.
    + repeat split; [lia|]. by intros last [= <-].
    + repeat split; [lia|done].
  - destruct (operation_done operation) eqn:Hdone; simpl.
    { exists 0. repeat split; [lia|]. by intros last [= <-]. }
    unfold bind, await.
    destruct (getVideosOperation env k) as [next|e|].
    + destruct (IH (S k) next) as (n & Hn & Htrace & Hlast).
      exists (S n). destruct (poll env fuel (S k) next) as [t o]. simpl in *.
      repeat split; [lia|by rewrite Htrace|done].
    + exists 1. repeat split; [lia|done].
    + exists 1. repeat split; [lia|done].
Qed.

(** The loop ends with the first status request that is not answered with a
    handle. *)
Lemma poll_stops (j : nat) :
  forall (fuel k : nat) (operation : Operation),
    j < fuel ->
    (forall i, i <= j ->
       exists op, observed env k operation i = Fulfilled op
                  /\ operation_done op = false) ->
    (forall op, getVideosOperation env (k + j) <> Fulfilled op) ->
    poll env fuel k operation
    = (status_checks k (S j),
       match getVideosOperation env (k + j) with
       | Rejected e => Rejected e
       | _ => Pending
       end).
Proof.
  induction j as [|j IH]; intros fuel k operation Hfuel Hrun Hstop;
    (destruct fuel as [|fuel]; [lia|]);
    destruct (Hrun 0 ltac:(lia)) as (op0 & Hop0 & Hnot);
    simpl in Hop0; injection Hop0 as <-;
    simpl; rewrite Hnot; unfold bind, await.
  - rewrite Nat.add_0_r in *.
    destruct (getVideosOperation env k) as [op|e|]; [by destruct (Hstop op)|done..].
  - destruct (Hrun 1 ltac:(lia)) as (next & Hnext & _).
    simpl in Hnext. rewrite Nat.add_0_r in Hnext. rewrite Hnext.
    pose proof (observed_next env k operation next Hnext) as Hshift.
    rewrite (IH fuel (S k) next).
    + by rewrite Nat.add_succ_r.
    + lia.
    + intros i Hi. rewrite Hshift. apply Hrun. lia.
    + intros op. replace (S k + j) with (k + S j) by lia. apply Hstop.
Qed.

End PollingFailures.

Lemma falsy_false (o : option string) :
  falsy o = false -> exists link, o = Some link /\ link <> EmptyString.
Proof. destruct o as [[|c link]|]; [done| |done]. intros _. by eexists. Qed.

(** X5: every trace of [generateAnimation], whatever the remote answers and
    however long it runs: one submission; then status requests numbered from
    0, each right after a delay of 8000 ms; then at most one download, of a
    non-empty link with [&key=] and the key appended, after which nothing
    follows. *)
Theorem generateAnimation_trace_shape
    (env : Remote) (fuel : nat) (base64 : string) (prompt : option JSValue) :
  exists n tail,
    n <= fuel
    /\ trace (generateAnimation env fuel base64 prompt)
       = GenerateVideos prompt (image_data base64) :: status_checks 0 n ++ tail
    /\ download_steps env tail.
Proof.
  unfold generateAnimation, bind at 1, await at 1.
  destruct (generateVideos env prompt (image_data base64)) as [first|e|];
    [|exists 0, []; repeat split; [lia|by left]..].
  destruct (poll_shape env fuel 0 first) as (n & Hn & Htrace & Hlast).
  exists n. unfold bind at 1.
  destruct (poll env fuel 0 first) as [t [last|e|]]; simpl in Htrace; subst t;
    [|exists []; rewrite app_nil_r; repeat split; [done|by left]..].
  destruct (falsy (download_link last)) eqn:Hfalsy.
  { exists []. simpl. repeat split; [done|by left]. }
  destruct (falsy_false _ Hfalsy) as (link & Hlink & Hne). rewrite Hlink.
  unfold bind, await. simpl interpolate at 1.
  set (url := link +:+ "&key=" +:+ interpolate (API_KEY env)).
  destruct (fetch env url) as [videoResponse|e|];
    [destruct (blob videoResponse) as [b|e|]|..]; simpl;
    eexists; (split; [done|]); (split; [reflexivity|]);
    right; exists link; (split; [done|]); fold url; eauto.
Qed.

(** X6: a status request that is rejected ends [generateAnimation] with that
    rejection: after [j] answers of not done and the rejection of the next
    request, the trace holds those [j + 1] requests and nothing else - no
    retry, no download. *)
Theorem generateAnimation_status_request_rejected
    (env : Remote) (j fuel : nat) (base64 : string) (prompt : option JSValue)
    (first : Operation) (e : JSError) :
  generateVideos env prompt (image_data base64) = Fulfilled first ->
  (forall i, i <= j ->
     exists op, observed env 0 first i = Fulfilled op /\ operation_done op = false) ->
  getVideosOperation env j = Rejected e ->
  j < fuel ->
  generateAnimation env fuel base64 prompt
  = (GenerateVideos prompt (image_data base64) :: status_checks 0 (S j), Rejected e).
Proof.
  intros Hsubmit Hrun Hreject Hfuel.
  assert (poll env fuel 0 first = (status_checks 0 (S j), Rejected e)) as Hpoll.
  { rewrite (poll_stops env j fuel 0 first); simpl; try done.
    - by rewrite Hreject.
    - intros op. by rewrite Hreject. }
  unfold generateAnimation, bind at 1, await at 1. rewrite Hsubmit.
  unfold bind. by rewrite Hpoll.
Qed.

Lemma generateAnimation_status_request_rejected_witness :
  generateAnimation (Cases.failing 2 Cases.quota) 9 Scenario.teapot_image None
  = (GenerateVideos None (image_data Scenario.teapot_image) :: status_checks 0 3,
     Rejected Cases.quota).
Proof.
  apply (generateAnimation_status_request_rejected
           (Cases.failing 2 Cases.quota) 2 9 Scenario.teapot_image None
           Scenario.running Cases.quota).
  - reflexivity.
  - intros i Hi. exists Scenario.running. split; [|reflexivity].
    destruct i as [|[|[|i]]]; [reflexivity..|lia].
  - reflexivity.
  - lia.
Defined.

(** X7: the loop has no bound of its own.  For a job that is never reported
    done, [generateAnimation] is still pending after any number of rounds,
    having made one status request per round. *)
Theorem generateAnimation_never_settles
    (env : Remote) (fuel : nat) (base64 : string) (prompt : option JSValue)
    (first : Operation) :
  generateVideos env prompt (image_data base64) = Fulfilled first ->
  (forall j, exists op, observed env 0 first j = Fulfilled op
                        /\ operation_done op = false) ->
  generateAnimation env fuel base64 prompt
  = (GenerateVideos prompt (image_data base64) :: status_checks 0 fuel, Pending)
  /\ count_status_checks (trace (generateAnimation env fuel base64 prompt)) = fuel.
Proof.
  intros Hsubmit Hrun.
  assert (generateAnimation env fuel base64 prompt
          = (GenerateVideos prompt (image_data base64) :: status_checks 0 fuel,
             Pending)) as ->.
  { unfold generateAnimation, bind at 1, await at 1. rewrite Hsubmit.
    by rewrite (poll_never_done env fuel 0 first Hrun). }
  split; [done|]. unfold trace, fst.
  change (GenerateVideos prompt (image_data base64) :: ?t)
    with ([GenerateVideos prompt (image_data base64)] ++ t).
  by rewrite count_status_checks_app, count_status_checks_polling.
Qed.

Lemma generateAnimation_never_settles_witness :
  generateAnimation Cases.stuck 500 Scenario.teapot_image None
  = (GenerateVideos None (image_data Scenario.teapot_image) :: status_checks 0 500,
     Pending)
  /\ count_status_checks
       (trace (generateAnimation Cases.stuck 500 Scenario.teapot_image None)) = 500.
Proof.
  apply (generateAnimation_never_settles Cases.stuck 500 Scenario.teapot_image None
           Scenario.running).
  - reflexivity.
  - intros j. exists Scenario.running. by destruct j.
Defined.

(** X8: when the job is done with a link but the download fails - the fetch
    is rejected, or the body cannot be read - [generateAnimation] rejects with
    that failure and creates no object URL. *)
Theorem generateAnimation_download_fails
    (env : Remote) (m fuel : nat) (base64 : string) (prompt : option JSValue)
    (first last : Operation) (link : string) (e : JSError) :
  generateVideos env prompt (image_data base64) = Fulfilled first ->
  (forall j, j < m ->
     exists op, observed env 0 first j = Fulfilled op /\ operation_done op = false) ->
  observed env 0 first m = Fulfilled last ->
  operation_done last = true ->
  download_link last = Some link ->
  link <> "" ->
  m <= fuel ->
  let url := link +:+ "&key=" +:+ interpolate (API_KEY env) in
  (fetch env url = Rejected e
   \/ exists videoResponse,
        fetch env url = Fulfilled videoResponse /\ blob videoResponse = Rejected e) ->
  let run := generateAnimation env fuel base64 prompt in
  outcome run = Rejected e
  /\ (forall b, CreateObjectURL b ∉ trace run)
  /\ count_status_checks (trace run) = m.
Proof.
  intros Hsubmit Hrun Hlast Hdone Hlink Hne Hfuel url Hfail run.
  assert (poll env fuel 0 first = (status_checks 0 m, Fulfilled last)) as Hpoll
    by (by apply poll_until_done).
  assert (falsy (Some link) = false) as Hfalsy by (destruct link; done).
  assert (exists tail,
            run = (GenerateVideos prompt (image_data base64)
                   :: status_checks 0 m ++ Fetch url :: tail, Rejected e)
            /\ (tail = [] \/ tail = [ReadBlob])) as (tail & -> & Htail).
  { unfold run, generateAnimation, bind at 1, await at 1. rewrite Hsubmit.
    unfold bind at 1. rewrite Hpoll, Hlink, Hfalsy.
    unfold bind, await. simpl interpolate at 1. fold url.
    destruct Hfail as [->|(videoResponse & -> & ->)]; eexists; split; eauto. }
  split; [done|]. unfold trace, fst. split.
  - intros b Hin. apply elem_of_cons in Hin as [|Hin]; [done|].
    apply elem_of_app in Hin as [Hin|Hin].
    + unfold status_checks in Hin. apply list_elem_of_In, in_flat_map in Hin.
      destruct Hin as (i & _ & [|[|[]]]); done.
    + apply elem_of_cons in Hin as [|Hin]; [done|].
      destruct Htail as [->| ->]; [by apply elem_of_nil in Hin|].
      apply elem_of_cons in Hin as [|Hin]; [done|]. by apply elem_of_nil in Hin.
  - change (GenerateVideos prompt (image_data base64) :: ?t)
      with ([GenerateVideos prompt (image_data base64)] ++ t).
    rewrite !count_status_checks_app, count_status_checks_polling.
    unfold count_status_checks.
    destruct Htail as [->| ->]; simpl; lia.
Qed.

Lemma generateAnimation_download_fails_witness :
  let run := generateAnimation (Cases.undownloadable true Cases.quota) 3
               Scenario.teapot_image None in
  outcome run = Rejected Cases.quota
  /\ (forall b, CreateObjectURL b ∉ trace run)
  /\ count_status_checks (trace run) = 0.
Proof.
  apply (generateAnimation_download_fails
           (Cases.undownloadable true Cases.quota) 0 3 Scenario.teapot_image None
           (Scenario.finished (Some Scenario.video_link))
           (Scenario.finished (Some Scenario.video_link))
           Scenario.video_link Cases.quota).
  - reflexivity.
  - intros j Hj. lia.
  - reflexivity.
  - reflexivity.
  - reflexivity.
  - discriminate.
  - lia.
  - right. eexists. split; reflexivity.
Defined.

(** ** The controller over all its runs *)

Lemma or_else_nonempty (o : option string) (d : string) :
  d <> EmptyString -> or_else o d <> EmptyString.
Proof. by destruct o as [[|c s]|]. Qed.

Lemma state_shape_catch (r : nat) (err : JSError) (w : World) :
  state_shape w -> state_shape (processImage_catch r err w).
Proof.
  intros [Hdescription _]. split; [done|]. simpl.
  eexists. split; [done|]. by apply or_else_nonempty.
Qed.

Lemma state_shape_step (w : World) (ev : Event) :
  state_shape w -> state_shape (step w ev).
Proof.
  intros Hw. pose proof Hw as [Hdescription _].
  destruct ev as [base64|r analysis|r err|r video|r err|]; simpl.
  - split; [done|]. simpl. eauto.
  - destruct (runs w !! r) as [[base64|base64 a]|]; [|done..].
    unfold processImage_analyzed.
    destruct (get_property analysis "animationPrompt") as [err|prompt].
    + apply state_shape_catch. split; [done|]. simpl. eauto.
    + split; [done|]. simpl. eauto.
  - destruct (runs w !! r) as [[base64|base64 a]|]; [|done..].
    by apply state_shape_catch.
  - destruct (runs w !! r) as [[base64|base64 a]|]; [done| |done].
    split; [done|]. simpl. eauto.
  - destruct (runs w !! r) as [[base64|base64 a]|]; [done| |done].
    by apply state_shape_catch.
  - split; done.
Qed.

Lemma state_shape_run_events (evs : list Event) :
  forall w, state_shape w -> state_shape (run_events w evs).
Proof.
  induction evs as [|ev evs IH]; intros w Hw; [done|].
  simpl. apply IH. by apply state_shape_step.
Qed.

(** X9: in every world the controller can reach, the fields of the state
    match its status.  [idle]: nothing is held, persona [null].  [analyzing]:
    an image, no video, no error.  [generating]: a persona.  [completed]: a
    video URL.  [error]: a non-empty message.  [description] is never set. *)
Theorem reachable_state_shape (evs : list Event) :
  let w := run_events initial evs in
  (status (state w) = Status.idle -> state w = cleared /\ persona w = None)
  /\ (status (state w) = Status.analyzing ->
        (exists base64, imageUrl (state w) = Some base64)
        /\ videoUrl (state w) = None /\ error (state w) = None)
  /\ (status (state w) = Status.generating -> exists analysis, persona w = Some analysis)
  /\ (status (state w) = Status.completed -> exists video, videoUrl (state w) = Some video)
  /\ (status (state w) = Status.error ->
        exists msg, error (state w) = Some msg /\ msg <> "")
  /\ description (state w) = None.
Proof.
  intros w.
  assert (state_shape w) as [Hdescription Hshape].
  { apply state_shape_run_events. split; [done|]. by simpl. }
  split; [|split; [|split; [|split; [|split; [|done]]]]];
    intros Hstatus; by rewrite Hstatus in Hshape.
Qed.

Lemma analyzer_calls_app (r : nat) (cs cs' : list Call) :
  analyzer_calls r (cs ++ cs') = analyzer_calls r cs ++ analyzer_calls r cs'.
Proof. apply List.filter_app. Qed.

Lemma analyzer_calls_generate (r r' : nat) (cs : list Call) (base64 : string)
    (prompt : option JSValue) :
  analyzer_calls r (cs ++ [CallGenerateAnimation r' base64 prompt])
  = analyzer_calls r cs.
Proof. rewrite analyzer_calls_app. simpl. by rewrite app_nil_r. Qed.

Lemma analyzer_calls_other (r r' : nat) (cs : list Call) (base64 : string) :
  r' <> r ->
  analyzer_calls r (cs ++ [CallAnalyzeImage r' base64]) = analyzer_calls r cs.
Proof.
  intros Hne. rewrite analyzer_calls_app. simpl.
  destruct (Nat.eqb_spec r' r); [done|]. by rewrite app_nil_r.
Qed.

Lemma precedes_app (a g c : Call) (cs : list Call) :
  precedes a g cs -> precedes a g (cs ++ [c]).
Proof.
  intros (before & between & after & ->).
  exists before, between, (after ++ [c]).
  by rewrite <- !app_assoc, <- !app_comm_cons, <- app_assoc.
Qed.

Lemma precedes_last (a g : Call) (cs : list Call) :
  a ∈ cs -> precedes a g (cs ++ [g]).
Proof.
  intros (before & between & ->)%list_elem_of_split.
  exists before, between, []. by rewrite <- app_assoc.
Qed.

Lemma calls_consistent_delete (rs : gmap nat Suspended) (n r0 : nat)
    (cs : list Call) :
  calls_consistent rs n cs -> calls_consistent (delete r0 rs) n cs.
Proof.
  intros [Hnew Hold]. split.
  - intros r Hr. destruct (Hnew r Hr) as (Hnone & Ha & Hg).
    split; [|done]. apply lookup_delete_None. by right.
  - intros r Hr. destruct (Hold r Hr) as (base64 & Ha & Hwait & Hgen & Hg).
    exists base64. split; [done|]. split; [|split; [|done]].
    + intros b [_ Hb]%lookup_delete_Some. by apply Hwait.
    + intros b a [_ Hb]%lookup_delete_Some. by apply (Hgen b a).
Qed.

Lemma calls_consistent_start (rs : gmap nat Suspended) (n : nat) (cs : list Call)
    (base64 : string) :
  calls_consistent rs n cs ->
  calls_consistent (<[n := AwaitAnalyze base64]> rs) (S n)
    (cs ++ [CallAnalyzeImage n base64]).
Proof.
  intros [Hnew Hold]. split.
  - intros r Hr. destruct (Hnew r ltac:(lia)) as (Hnone & Ha & Hg).
    rewrite lookup_insert_ne, analyzer_calls_other, generator_calls_analyze by lia.
    done.
  - intros r Hr. destruct (decide (r = n)) as [->|Hne].
    + destruct (Hnew n ltac:(lia)) as (Hnone & Ha & Hg).
      exists base64. rewrite analyzer_calls_app, Ha, generator_calls_analyze, Hg.
      simpl. rewrite Nat.eqb_refl. rewrite lookup_insert_eq.
      split; [done|]. split; [by intros b [= <-]|]. split; [done|by left].
    + destruct (Hold r ltac:(lia)) as (b0 & Ha & Hwait & Hgen & Hg).
      exists b0.
      rewrite lookup_insert_ne, analyzer_calls_other, generator_calls_analyze by done.
      split; [done|]. split; [exact Hwait|]. split; [exact Hgen|].
      destruct Hg as [Hg|(prompt & Hg & Hbefore)]; [by left|right].
      exists prompt. split; [done|]. by apply precedes_app.
Qed.

Lemma calls_consistent_generate (rs : gmap nat Suspended) (n r0 : nat)
    (cs : list Call) (base64 : string) (analysis : JSValue)
    (prompt : option JSValue) :
  calls_consistent rs n cs ->
  rs !! r0 = Some (AwaitAnalyze base64) ->
  get_property analysis "animationPrompt" = inr prompt ->
  calls_consistent (<[r0 := AwaitGenerate base64 analysis]> rs) n
    (cs ++ [CallGenerateAnimation r0 base64 prompt]).
Proof.
  intros [Hnew Hold] Hr0 Hprompt.
  assert (r0 < n) as Hlt.
  { destruct (decide (r0 < n)); [done|].
    destruct (Hnew r0 ltac:(lia)) as (Hnone & _). congruence. }
  split.
  - intros r Hr. destruct (Hnew r Hr) as (Hnone & Ha & Hg).
    rewrite lookup_insert_ne, analyzer_calls_generate, generator_calls_other by lia.
    done.
  - intros r Hr. destruct (Hold r Hr) as (b0 & Ha & Hwait & Hgen & Hg).
    exists b0. rewrite analyzer_calls_generate. split; [done|].
    destruct (decide (r = r0)) as [->|Hne].
    + destruct (Hwait _ Hr0) as [Heq Hnone]. subst b0.
      rewrite lookup_insert_eq, generator_calls_app, Hnone. simpl.
      rewrite Nat.eqb_refl. simpl.
      split; [done|]. split.
      * intros b a [= <- <-]. split; [done|]. by exists prompt.
      * right. exists prompt. split; [done|].
        apply precedes_last.
        assert (CallAnalyzeImage r0 base64 ∈ analyzer_calls r0 cs) as Hin
          by (rewrite Ha; apply list_elem_of_here).
        apply list_elem_of_In, filter_In in Hin as [Hin _].
        by apply list_elem_of_In.
    + rewrite lookup_insert_ne, generator_calls_other by done.
      split; [exact Hwait|]. split; [exact Hgen|].
      destruct Hg as [Hg|(p & Hg & Hbefore)]; [by left|right].
      exists p. split; [done|]. by apply precedes_app.
Qed.

Lemma calls_consistent_step (w : World) (ev : Event) :
  calls_consistent (runs w) (next_run w) (calls w) ->
  calls_consistent (runs (step w ev)) (next_run (step w ev)) (calls (step w ev)).
Proof.
  intros Hw.
  destruct ev as [base64|r analysis|r err|r video|r err|]; simpl.
  - by apply calls_consistent_start.
  - destruct (runs w !! r) as [[base64|base64 a]|] eqn:Hr; [|done..].
    unfold processImage_analyzed.
    destruct (get_property analysis "animationPrompt") as [err|prompt] eqn:Hprompt.
    + simpl. by apply calls_consistent_delete.
    + simpl. by apply calls_consistent_generate.
  - destruct (runs w !! r) as [[base64|base64 a]|]; [|done..].
    simpl. by apply calls_consistent_delete.
  - destruct (runs w !! r) as [[base64|base64 a]|]; [done| |done].
    simpl. by apply calls_consistent_delete.
  - destruct (runs w !! r) as [[base64|base64 a]|]; [done| |done].
    simpl. by apply calls_consistent_delete.
  - done.
Qed.

Lemma calls_consistent_reachable (evs : list Event) :
  forall w,
    calls_consistent (runs w) (next_run w) (calls w) ->
    calls_consistent (runs (run_events w evs)) (next_run (run_events w evs))
      (calls (run_events w evs)).
Proof.
  induction evs as [|ev evs IH]; intros w Hw; [done|].
  simpl. apply IH. by apply calls_consistent_step.
Qed.

Lemma calls_consistent_initial :
  calls_consistent (runs initial) (next_run initial) (calls initial).
Proof. split; [|intros r Hr; simpl in Hr; lia]. intros r _. by simpl. Qed.

(** X10: in every world the controller can reach, each call of
    [processImage] has called the analyzer exactly once and the generator at
    most once, and a generator call comes after the analyzer call of its run
    and carries the same image. *)
Theorem each_run_calls_in_order (evs : list Event) (r : nat) :
  let w := run_events initial evs in
  length (analyzer_calls r (calls w)) = (if (r <? next_run w)%nat then 1 else 0)
  /\ length (generator_calls r (calls w)) <= 1
  /\ (forall base64 prompt,
        CallGenerateAnimation r base64 prompt ∈ calls w ->
        precedes (CallAnalyzeImage r base64)
          (CallGenerateAnimation r base64 prompt) (calls w)).
Proof.
  intros w.
  destruct (calls_consistent_reachable evs initial calls_consistent_initial)
    as [Hnew Hold]. fold w in Hnew, Hold.
  destruct (Nat.ltb_spec r (next_run w)) as [Hr|Hr].
  - destruct (Hold r Hr) as (b0 & Ha & _ & _ & Hg). rewrite Ha.
    split; [done|].
    destruct Hg as [Hg|(p & Hg & Hbefore)]; rewrite Hg; (split; [simpl; lia|]);
      intros base64 prompt Hin;
      assert (CallGenerateAnimation r base64 prompt ∈ generator_calls r (calls w))
        as Hin' by (apply list_elem_of_In, filter_In; split;
                    [by apply list_elem_of_In|simpl; apply Nat.eqb_refl]);
      rewrite Hg in Hin'.
    + by apply elem_of_nil in Hin'.
    + apply list_elem_of_singleton in Hin'. by injection Hin' as -> ->.
  - destruct (Hnew r Hr) as (_ & Ha & Hg). rewrite Ha, Hg.
    split; [done|]. split; [simpl; lia|].
    intros base64 prompt Hin.
    assert (CallGenerateAnimation r base64 prompt ∈ generator_calls r (calls w))
      as Hin' by (apply list_elem_of_In, filter_In; split;
                  [by apply list_elem_of_In|simpl; apply Nat.eqb_refl]).
    rewrite Hg in Hin'. by apply elem_of_nil in Hin'.
Qed.

(** X11: in every world the controller can reach, a run that awaits the
    generator has called it exactly once, with the image the run was started
    with (the one it gave the analyzer) and the [animationPrompt] of the
    analysis it received. *)
Theorem generator_gets_analysis_prompt
    (evs : list Event) (r : nat) (base64 : string) (analysis : JSValue) :
  let w := run_events initial evs in
  runs w !! r = Some (AwaitGenerate base64 analysis) ->
  exists prompt,
    get_property analysis "animationPrompt" = inr prompt
    /\ generator_calls r (calls w) = [CallGenerateAnimation r base64 prompt]
    /\ analyzer_calls r (calls w) = [CallAnalyzeImage r base64].
Proof.
  intros w Hr.
  destruct (calls_consistent_reachable evs initial calls_consistent_initial)
    as [Hnew Hold]. fold w in Hnew, Hold.
  destruct (decide (r < next_run w)) as [Hlt|Hge].
  - destruct (Hold r Hlt) as (b0 & Ha & _ & Hgen & _).
    destruct (Hgen _ _ Hr) as (-> & prompt & Hprompt & Hg). by exists prompt.
  - destruct (Hnew r ltac:(lia)) as (Hnone & _). congruence.
Qed.

Lemma generator_gets_analysis_prompt_witness :
  let w := run_events initial [Start Scenario.teapot_image;
                               Start "data:image/png;base64,iVBORw0KGgo=";
                               AnalyzeFulfilled 1 Scenario.teapot] in
  exists prompt,
    get_property Scenario.teapot "animationPrompt" = inr prompt
    /\ generator_calls 1 (calls w)
       = [CallGenerateAnimation 1 "data:image/png;base64,iVBORw0KGgo=" prompt]
    /\ analyzer_calls 1 (calls w)
       = [CallAnalyzeImage 1 "data:image/png;base64,iVBORw0KGgo="].
Proof.
  apply (generator_gets_analysis_prompt
           [Start Scenario.teapot_image;
            Start "data:image/png;base64,iVBORw0KGgo=";
            AnalyzeFulfilled 1 Scenario.teapot]
           1 "data:image/png;base64,iVBORw0KGgo=" Scenario.teapot).
  vm_compute. reflexivity.
Defined.

(** X12: [reset] does not stop a run that awaits the analyzer either.  When
    the analysis arrives after the reset, the run goes on from the cleared
    state: the status becomes [generating] with no image, the persona is set,
    and the generator is called for the image of the run that was reset. *)
Theorem reset_keeps_analysis_in_flight
    (w : World) (r : nat) (base64 : string) (analysis : JSValue)
    (prompt : option JSValue) :
  runs w !! r = Some (AwaitAnalyze base64) ->
  get_property analysis "animationPrompt" = inr prompt ->
  let w1 := step w Reset in
  let w2 := step w1 (AnalyzeFulfilled r analysis) in
  runs w1 !! r = Some (AwaitAnalyze base64)
  /\ state w2 = {| status := Status.generating; imageUrl := None; videoUrl := None;
                   description := None; error := None |}
  /\ persona w2 = Some analysis
  /\ calls w2 = calls w ++ [CallGenerateAnimation r base64 prompt]
  /\ runs w2 !! r = Some (AwaitGenerate base64 analysis).
Proof.
  intros Hawait Hprompt w1 w2.
  assert (runs w1 !! r = Some (AwaitAnalyze base64)) as Hkept by exact Hawait.
  split; [exact Hkept|].
  assert (w2 = processImage_analyzed r base64 analysis w1) as ->.
  { unfold w2.
    change (step w1 (AnalyzeFulfilled r analysis))
      with (match runs w1 !! r with
            | Some (AwaitAnalyze b) => processImage_analyzed r b analysis w1
            | _ => w1
            end).
    by rewrite Hkept. }
  unfold processImage_analyzed. rewrite Hprompt. simpl.
  repeat split. apply lookup_insert_eq.
Qed.

Lemma reset_keeps_analysis_in_flight_witness :
  let w := run_events initial [Start Scenario.teapot_image] in
  let w1 := step w Reset in
  let w2 := step w1 (AnalyzeFulfilled 0 Scenario.teapot) in
  runs w1 !! 0 = Some (AwaitAnalyze Scenario.teapot_image)
  /\ state w2 = {| status := Status.generating; imageUrl := None; videoUrl := None;
                   description := None; error := None |}
  /\ persona w2 = Some Scenario.teapot
  /\ calls w2 = calls w
                ++ [CallGenerateAnimation 0 Scenario.teapot_image
                      (Some (JString "teapot wiggles its spout and winks"))]
  /\ runs w2 !! 0 = Some (AwaitGenerate Scenario.teapot_image Scenario.teapot).
Proof.
  apply (reset_keeps_analysis_in_flight
           (run_events initial [Start Scenario.teapot_image]) 0
           Scenario.teapot_image Scenario.teapot
           (Some (JString "teapot wiggles its spout and winks"))).
  - vm_compute. reflexivity.
  - reflexivity.
Defined.

(** At most one run in flight, and none while idle. *)
Lemma orderly_step (w : World) (ev : Event) :
  (status (state w) = Status.idle -> runs w = ∅) ->
  (runs w = ∅ \/ exists r k, runs w = {[r := k]}) ->
  orderly w [ev] ->
  (status (state (step w ev)) = Status.idle -> runs (step w ev) = ∅)
  /\ (runs (step w ev) = ∅ \/ exists r k, runs (step w ev) = {[r := k]}).
Proof.
  intros Hidle Hone [Hev _].
  assert (forall r k, runs w !! r = Some k -> runs w = {[r := k]}) as Honly.
  { intros r k Hr. destruct Hone as [Hone|(r0 & k0 & Hone)]; rewrite Hone in Hr.
    - by rewrite lookup_empty in Hr.
    - apply lookup_singleton_Some in Hr as [-> ->]. done. }
  destruct ev as [base64|r analysis|r err|r video|r err|]; simpl.
  - split; [done|]. right. rewrite (Hidle Hev), insert_empty. eauto.
  - destruct (runs w !! r) as [[base64|base64 a]|] eqn:Hr; [|done..].
    unfold processImage_analyzed.
    destruct (get_property analysis "animationPrompt") as [err|prompt]; simpl.
    + split; [done|]. left. by rewrite (Honly _ _ Hr), delete_singleton_eq.
    + split; [done|]. right. rewrite (Honly _ _ Hr), insert_singleton_eq. eauto.
  - destruct (runs w !! r) as [[base64|base64 a]|] eqn:Hr; [|done..]. simpl.
    split; [done|]. left. by rewrite (Honly _ _ Hr), delete_singleton_eq.
  - destruct (runs w !! r) as [[base64|base64 a]|] eqn:Hr; [done| |done]. simpl.
    split; [done|]. left. by rewrite (Honly _ _ Hr), delete_singleton_eq.
  - destruct (runs w !! r) as [[base64|base64 a]|] eqn:Hr; [done| |done]. simpl.
    split; [done|]. left. by rewrite (Honly _ _ Hr), delete_singleton_eq.
  - split; [done|]. by left.
Qed.

Lemma orderly_run_events (evs : list Event) :
  forall w,
    (status (state w) = Status.idle -> runs w = ∅) ->
    (runs w = ∅ \/ exists r k, runs w = {[r := k]}) ->
    orderly w evs ->
    (status (state (run_events w evs)) = Status.idle -> runs (run_events w evs) = ∅)
    /\ (runs (run_events w evs) = ∅
        \/ exists r k, runs (run_events w evs) = {[r := k]}).
Proof.
  induction evs as [|ev evs IH]; intros w Hidle Hone Hevs; [done|].
  destruct Hevs as [Hev Hevs].
  destruct (orderly_step w ev Hidle Hone) as [Hidle' Hone']; [done|].
  simpl. by apply IH.
Qed.

(** X13: when every start happens while the status is [idle] - as the view
    allows - and every reset happens when no run is in flight, the controller
    never has more than one run in flight, and has none whenever it is
    [idle]. *)
Theorem orderly_single_run (evs : list Event) :
  orderly initial evs ->
  let w := run_events initial evs in
  size (runs w) <= 1
  /\ (status (state w) = Status.idle -> runs w = ∅).
Proof.
  intros Hevs w.
  destruct (orderly_run_events evs initial) as [Hidle Hone]; try done; [by left|].
  fold w in Hidle, Hone. split; [|done].
  destruct Hone as [->|(r & k & ->)].
  - rewrite map_size_empty. lia.
  - by rewrite map_size_singleton.
Qed.

Lemma orderly_single_run_witness :
  let w := run_events initial
             [Start Scenario.teapot_image; AnalyzeFulfilled 0 Scenario.teapot;
              GenerateRejected 0 Cases.quota; Reset;
              Start Scenario.teapot_image; AnalyzeFulfilled 1 Scenario.teapot] in
  size (runs w) <= 1
  /\ (status (state w) = Status.idle -> runs w = ∅).
Proof.
  apply (orderly_single_run
           [Start Scenario.teapot_image; AnalyzeFulfilled 0 Scenario.teapot;
            GenerateRejected 0 Cases.quota; Reset;
            Start Scenario.teapot_image; AnalyzeFulfilled 1 Scenario.teapot]).
  vm_compute. repeat split; reflexivity.
Defined.

(** ** A whole run, in general *)

(** X14: what an undisturbed run leaves behind is decided by the outcomes of
    the two adapters.  The state holds the image throughout; it stays
    [analyzing] or [generating] while the adapter awaited there has not
    settled, is [completed] with the generator's video when both are
    fulfilled, and is [error] - with the failure's message, or
    ["Something went wrong"] when it has none - as soon as one fails, a
    [null] analysis included.  The generator is called exactly when the
    analysis is fulfilled with a value other than [null]. *)
Theorem pipeline_result
    (JSON_parse : string -> option JSValue) (env : Remote) (fuel : nat)
    (base64 : string) (w : World) :
  let w' := pipeline JSON_parse env fuel base64 w in
  let r := next_run w in
  let shown := fun st video err =>
    {| status := st; imageUrl := Some base64; videoUrl := video;
       description := None; error := err |} in
  let failed := fun e =>
    shown Status.error None (Some (or_else (message e) "Something went wrong")) in
  match outcome (analyzeImage JSON_parse env base64) with
  | Pending =>
      state w' = shown Status.analyzing None None
      /\ calls w' = calls w ++ [CallAnalyzeImage r base64]
  | Rejected e =>
      state w' = failed e
      /\ calls w' = calls w ++ [CallAnalyzeImage r base64]
  | Fulfilled analysis =>
      match get_property analysis "animationPrompt" with
      | inl e =>
          state w' = failed e
          /\ calls w' = calls w ++ [CallAnalyzeImage r base64]
      | inr prompt =>
          calls w' = calls w ++ [CallAnalyzeImage r base64;
                                 CallGenerateAnimation r base64 prompt]
          /\ persona w' = Some analysis
          /\ state w' =
             match outcome (generateAnimation env fuel base64 prompt) with
             | Pending => shown Status.generating None None
             | Rejected e => failed e
             | Fulfilled video => shown Status.completed (Some video) None
             end
      end
  end.
Proof.
  intros w' r shown failed. unfold w', pipeline. fold r.
  destruct (outcome (analyzeImage JSON_parse env base64)) as [analysis|e|];
    simpl analyze_settles.
  - change (run_events (step w (Start base64)) [AnalyzeFulfilled r analysis])
      with (step (step w (Start base64)) (AnalyzeFulfilled r analysis)).
    unfold step. unfold r. rewrite runs_processImage. fold r.
    unfold processImage_analyzed.
    destruct (get_property analysis "animationPrompt") as [err|prompt] eqn:Hprompt.
    + simpl runs. rewrite lookup_delete_eq. by simpl.
    + simpl runs. rewrite lookup_insert_eq, Hprompt.
      destruct (outcome (generateAnimation env fuel base64 prompt)) as [video|e|];
        simpl generate_settles.
      * simpl. rewrite lookup_insert_eq. simpl. by rewrite <- app_assoc.
      * simpl. rewrite lookup_insert_eq. simpl. by rewrite <- app_assoc.
      * simpl. by rewrite <- app_assoc.
  - change (run_events (step w (Start base64)) [AnalyzeRejected r e])
      with (step (step w (Start base64)) (AnalyzeRejected r e)).
    unfold step. unfold r. rewrite runs_processImage. simpl.
    by rewrite lookup_delete_eq.
  - change (run_events (step w (Start base64)) []) with (step w (Start base64)).
    unfold step. unfold r. by rewrite runs_processImage.
Qed.

(** ** What [App] renders *)


(** The answer [0] is valid JSON and falsy: the run completes, and the page
    shows the text [0] where the result would be. *)
Example render_zero_persona :
  let w := pipeline MiniJSON.parse
             (Scenario.remote "0" 0 (Some Scenario.video_link))
             10 Scenario.teapot_image initial in
  status (state w) = Status.completed
  /\ persona w = Some (JNumber "0")
  /\ render (fun lexeme => String.eqb lexeme "0") true w = Page true [Text "0"].
Proof. vm_compute. repeat split; reflexivity. Qed.

(** X16: the blank page.  When [reset] is clicked while a run awaits the
    generator and the video arrives afterwards, the page shows nothing in
    [<main>] - the status is [completed] but the persona is gone - and offers
    no start; the header's Reset button is there, and a click on it brings the
    capture controls back. *)
Theorem stale_result_blank_page
    (number_is_zero : string -> bool) (w : World) (r : nat)
    (base64 video : string) (analysis : JSValue) :
  runs w !! r = Some (AwaitGenerate base64 analysis) ->
  let w' := run_events w [Reset; GenerateFulfilled r video] in
  render number_is_zero true w' = Page true []
  /\ offers_start true w' = false
  /\ render number_is_zero true (step w' Reset) = Page false [Capture].
Proof.
  intros Hawait w'.
  assert (w' = processImage_generated r video (reset w)) as ->.
  { unfold w'.
    change (run_events w [Reset; GenerateFulfilled r video])
      with (match runs (reset w) !! r with
            | Some (AwaitGenerate _ _) => processImage_generated r video (reset w)
            | _ => reset w
            end).
    change (runs (reset w)) with (runs w). by rewrite Hawait. }
  done.
Qed.

Lemma stale_result_blank_page_witness :
  let w' := run_events initial [Start Scenario.teapot_image;
                                AnalyzeFulfilled 0 Scenario.teapot;
                                Reset; GenerateFulfilled 0 Scenario.object_url] in
  render (fun _ => false) true w' = Page true []
  /\ offers_start true w' = false
  /\ render (fun _ => false) true (step w' Reset) = Page false [Capture].
Proof.
  apply (stale_result_blank_page (fun _ => false)
           (run_events initial [Start Scenario.teapot_image;
                                AnalyzeFulfilled 0 Scenario.teapot])
           0 Scenario.teapot_image Scenario.object_url Scenario.teapot).
  vm_compute. reflexivity.
Defined.

(** ** The key gate and the page *)

Lemma handleKeySelection_goes_through (aistudio : option AIStudio) (flag : bool) :
  handleKeySelection aistudio flag = goes_through aistudio || flag.
Proof.
  unfold handleKeySelection, goes_through.
  destruct aistudio as [studio|]; [|done].
  by destruct (openSelectKey studio).
Qed.

(** X17: the key flag after the check on mount and any clicks on Select API
    Key.  It is set when a click went through - [window.aistudio] absent, or
    its dialog closed without an error - whether or not a key was selected;
    otherwise it is what the check on mount found, [false] when
    [window.aistudio] is absent or its answer failed.  No click clears it. *)
Theorem key_flag (on_mount : option AIStudio) (clicks : list (option AIStudio)) :
  fold_left (fun flag aistudio => handleKeySelection aistudio flag) clicks
    (checkKey on_mount false)
  = existsb goes_through clicks
    || match on_mount with
       | Some studio =>
           match hasSelectedApiKey studio with
           | Fulfilled selected => selected
           | _ => false
           end
       | None => false
       end.
Proof.
  assert (forall flag,
            fold_left (fun flag aistudio => handleKeySelection aistudio flag)
              clicks flag
            = existsb goes_through clicks || flag) as Hclicks.
  { induction clicks as [|aistudio clicks IH]; intros flag; simpl; [done|].
    rewrite IH, handleKeySelection_goes_through.
    by destruct (existsb goes_through clicks), (goes_through aistudio), flag. }
  rewrite Hclicks. unfold checkKey.
  destruct on_mount as [studio|]; [|done].
  by destruct (hasSelectedApiKey studio).
Qed.

Lemma gesture_locked (g : Gesture) :
  (forall aistudio, g = KeyChecked aistudio -> checkKey aistudio false = false) ->
  (forall aistudio, g = SelectKey aistudio -> goes_through aistudio = false) ->
  gesture locked g = locked.
Proof.
  intros Hcheck Hkey.
  destruct g as [files|i|dataUrl| |aistudio|aistudio|ev]; simpl; try done.
  - by rewrite (Hcheck aistudio eq_refl).
  - rewrite handleKeySelection_goes_through, (Hkey aistudio eq_refl). done.
  - by destruct ev.
Qed.

(** X18: while no key is selected the pipeline cannot be started.  From the
    key screen [App] mounts with, until the check on mount reports a selected
    key or a click on Select API Key goes through, no gesture changes
    anything: no image is taken, no adapter is called. *)
Theorem locked_page_stays_locked (gs : list Gesture) :
  (forall aistudio, KeyChecked aistudio ∈ gs -> checkKey aistudio false = false) ->
  (forall aistudio, SelectKey aistudio ∈ gs -> goes_through aistudio = false) ->
  gestures locked gs = locked.
Proof.
  induction gs as [|g gs IH]; intros Hchecks Hkeys; [done|].
  unfold gestures. simpl. rewrite gesture_locked.
  - apply IH; intros aistudio Hin;
      [apply Hchecks|apply Hkeys]; by apply list_elem_of_further.
  - intros aistudio ->. apply Hchecks. apply list_elem_of_here.
  - intros aistudio ->. apply Hkeys. apply list_elem_of_here.
Qed.

Lemma locked_page_stays_locked_witness :
  gestures locked
    [PickFiles [Scenario.teapot_image]; Snap Scenario.teapot_image; ClickReset;
     KeyChecked (Some {| hasSelectedApiKey := Fulfilled false;
                         openSelectKey := Fulfilled tt |});
     SelectKey (Some {| hasSelectedApiKey := Fulfilled true;
                        openSelectKey := Rejected Cases.quota |});
     KeyChecked None;
     FileLoaded 0; Settles (AnalyzeFulfilled 0 Scenario.teapot)]
  = locked.
Proof.
  apply (locked_page_stays_locked
           [PickFiles [Scenario.teapot_image]; Snap Scenario.teapot_image;
            ClickReset;
            KeyChecked (Some {| hasSelectedApiKey := Fulfilled false;
                                openSelectKey := Fulfilled tt |});
            SelectKey (Some {| hasSelectedApiKey := Fulfilled true;
                               openSelectKey := Rejected Cases.quota |});
            KeyChecked None;
            FileLoaded 0; Settles (AnalyzeFulfilled 0 Scenario.teapot)]);
    intros aistudio Hin;
    repeat (apply elem_of_cons in Hin as [Hin|Hin]; [by inversion Hin|]);
    by apply elem_of_nil in Hin.
Defined.

(** The check on mount opens the page by itself when it reports a selected
    key: no click is needed before a file starts a run. *)
Lemma key_check_opens_page (studio : AIStudio) (file : string) :
  hasSelectedApiKey studio = Fulfilled true ->
  let p := gestures locked [KeyChecked (Some studio); PickFiles [file]; FileLoaded 0] in
  hasKey p = true
  /\ calls (world p) = [CallAnalyzeImage 0 file]
  /\ status (state (world p)) = Status.analyzing.
Proof.
  intros Hselected p. unfold p, gestures. cbn [fold_left].
  assert (gesture locked (KeyChecked (Some studio))
          = {| world := initial; hasKey := true; reading := [] |}) as ->.
  { unfold gesture, checkKey. by rewrite Hselected. }
  done.
Qed.

(** X19: the view's gate does not cover a file that is being read.  From an
    idle page, choosing a file and then another before the first is read
    starts two readers; as they load, each calls [processImage], the second
    while the first run is in flight: two runs side by side, without any
    reset.  Of several files chosen at once only the first is read; choosing
    none does nothing. *)
Theorem two_uploads_overlap (p : PageState) (a b : string) (others : list string) :
  hasKey p = true ->
  status (state (world p)) = Status.idle ->
  reading p = [] ->
  let n := next_run (world p) in
  let p' := gestures p [PickFiles (a :: others); PickFiles [];
                        PickFiles [b]; FileLoaded 0; FileLoaded 0] in
  runs (world p') !! n = Some (AwaitAnalyze a)
  /\ runs (world p') !! S n = Some (AwaitAnalyze b)
  /\ calls (world p') = calls (world p)
                        ++ [CallAnalyzeImage n a; CallAnalyzeImage (S n) b]
  /\ reading p' = []
  /\ imageUrl (state (world p')) = Some b.
Proof.
  intros Hkey Hidle Hreading n p'.
  destruct p as [w flag readers]. simpl in Hkey, Hidle, Hreading, n.
  subst flag readers.
  assert (p' = {| world := processImage b (processImage a w); hasKey := true;
                  reading := [] |}) as ->.
  { assert (forall files readers,
              gesture {| world := w; hasKey := true; reading := readers |}
                (PickFiles files)
              = onChange files {| world := w; hasKey := true; reading := readers |})
      as Hpick.
    { intros files readers. unfold gesture, offers_start.
      cbn [world hasKey]. by rewrite Hidle. }
    unfold p', gestures. cbn [fold_left]. rewrite Hpick.
    change (onChange (a :: others) {| world := w; hasKey := true; reading := [] |})
      with {| world := w; hasKey := true; reading := [a] |}.
    rewrite Hpick.
    change (onChange [] {| world := w; hasKey := true; reading := [a] |})
      with {| world := w; hasKey := true; reading := [a] |}.
    rewrite Hpick. reflexivity. }
  cbn [world reading]. fold n. repeat split.
  - simpl. rewrite lookup_insert_ne by lia. apply lookup_insert_eq.
  - simpl. apply lookup_insert_eq.
  - simpl. by rewrite <- app_assoc.
Qed.

Lemma two_uploads_overlap_witness :
  let p := {| world := initial; hasKey := true; reading := [] |} in
  let p' := gestures p [PickFiles [Scenario.teapot_image; "data:,"]; PickFiles [];
                        PickFiles ["data:image/png;base64,iVBORw0KGgo="];
                        FileLoaded 0; FileLoaded 0] in
  runs (world p') !! 0 = Some (AwaitAnalyze Scenario.teapot_image)
  /\ runs (world p') !! 1 = Some (AwaitAnalyze "data:image/png;base64,iVBORw0KGgo=")
  /\ calls (world p')
     = calls (world p)
       ++ [CallAnalyzeImage 0 Scenario.teapot_image;
           CallAnalyzeImage 1 "data:image/png;base64,iVBORw0KGgo="]
  /\ reading p' = []
  /\ imageUrl (state (world p')) = Some "data:image/png;base64,iVBORw0KGgo=".
Proof.
  apply (two_uploads_overlap {| world := initial; hasKey := true; reading := [] |}
           Scenario.teapot_image "data:image/png;base64,iVBORw0KGgo=" ["data:,"]);
    reflexivity.
Defined.

(** ** [CameraCapture] *)

Lemma same_stream_None (a : option MediaStream) :
  same_stream a None = true -> a = None.
Proof. by destruct a. Qed.

Lemma same_stream_fresh (held : option MediaStream) (n : nat) (ts : list nat) :
  (forall s, held = Some s -> stream_id s < n) ->
  same_stream held (Some {| stream_id := n; tracks := ts |}) = false.
Proof.
  intros Hheld. destruct held as [s|]; [|done]. simpl.
  apply Nat.eqb_neq. specialize (Hheld s eq_refl). lia.
Qed.

Lemma camera_ok_stopCamera (s : option MediaStream) (c : Camera) :
  camera_ok c -> camera_ok (stopCamera s c).
Proof. intros (Hstream & Hshown & Heffect & Hfresh). by repeat split. Qed.

Lemma camera_ok_answered (answer : Outcome (list nat)) (c : Camera) :
  camera_ok c -> camera_ok (startCamera_answered answer c).
Proof.
  intros (Hstream & Hshown & Heffect & Hfresh).
  destruct answer as [ts|e|]; [| |done]; simpl.
  - split; [|split; [|split]]; simpl.
    + intros s. destruct (mounted c).
      * intros [= <-]. simpl. lia.
      * intros Hs%Hstream. lia.
    + intros s Hs%Hshown. lia.
    + intros s Hs%Heffect. lia.
    + intros Hmounted s. rewrite Hmounted. intros [= <-].
      by apply same_stream_fresh.
  - by repeat split.
Qed.

Lemma camera_ok_same (c c' : Camera) :
  stream c' = stream c -> shown c' = shown c -> effect c' = effect c ->
  next_stream c' = next_stream c -> mounted c' = mounted c ->
  camera_ok c -> camera_ok c'.
Proof.
  unfold camera_ok. intros -> -> -> -> ->. done.
Qed.

Lemma camera_ok_commit (c : Camera) : camera_ok c -> camera_ok (commit c).
Proof. intros (Hstream & Hshown & Heffect & Hfresh). by repeat split. Qed.

Lemma camera_ok_flush (c : Camera) : camera_ok c -> camera_ok (flush c).
Proof.
  intros Hc. unfold flush.
  destruct (same_stream (effect c) (shown c)); [done|].
  destruct Hc as (Hstream & Hshown & Heffect & Hfresh).
  split; [|split; [|split]]; simpl; done.
Qed.

Lemma camera_ok_unmount (c : Camera) : camera_ok c -> camera_ok (unmount c).
Proof.
  intros (Hstream & Hshown & Heffect & Hfresh).
  split; [|split; [|split]]; simpl; done.
Qed.

Lemma camera_ok_step (c : Camera) (ev : CameraEvent) :
  camera_ok c -> camera_ok (camera_step c ev).
Proof.
  intros Hc. unfold camera_step.
  destruct (negb (mounted c)).
  - destruct ev as [|answer|context dataUrl| | | |]; try done.
    destruct (0 <? requested c)%nat; [|done]. by apply camera_ok_answered.
  - destruct ev as [|answer|context dataUrl| | | |].
    + destruct (shown c); [done|]. by apply (camera_ok_same c).
    + destruct (0 <? requested c)%nat; [|done]. by apply camera_ok_answered.
    + unfold capture. destruct (shown c) as [preview|] eqn:Hpreview; [|done].
      destruct context; [|done]. apply camera_ok_stopCamera.
      rewrite <- Hpreview. by apply (camera_ok_same c).
    + destruct (shown c); [|done]. by apply camera_ok_stopCamera.
    + by apply camera_ok_commit.
    + by apply camera_ok_flush.
    + by apply camera_ok_unmount.
Qed.

Lemma camera_ok_run (evs : list CameraEvent) :
  forall c, camera_ok c -> camera_ok (camera_run c evs).
Proof.
  induction evs as [|ev evs IH]; intros c Hc; [done|].
  simpl. apply IH. by apply camera_ok_step.
Qed.

Lemma camera_ok_mounted : camera_ok camera_mounted.
Proof. by repeat split. Qed.

(** X20: the preview does not last.  Whatever happened to a mounted
    [CameraCapture], once React has nothing left to do - the state rendered,
    its effect in place - the state holds no stream and the component shows
    the camera button, not the video with Snap Photo and Cancel: the cleanup
    of the effect set up without a stream calls [setStream(null)] as soon as a
    stream is rendered. *)
Theorem camera_quiescent_off (evs : list CameraEvent) :
  let c := camera_run camera_mounted evs in
  mounted c = true ->
  quiescent c = true ->
  stream c = None /\ shown c = None.
Proof.
  intros c Hmounted [Hrendered Heffect]%andb_prop.
  destruct (camera_ok_run evs camera_mounted camera_ok_mounted)
    as (_ & _ & _ & Hfresh). fold c in Hfresh.
  destruct (stream c) as [s|] eqn:Hs.
  - specialize (Hfresh Hmounted s eq_refl).
    destruct (shown c) as [s'|]; [|done]. destruct (effect c) as [e|]; [|done].
    simpl in *. apply Nat.eqb_eq in Hrendered, Heffect.
    apply Nat.eqb_neq in Hfresh. lia.
  - split; [done|]. destruct (shown c); done.
Qed.

Lemma camera_quiescent_off_witness :
  let c := camera_run camera_mounted
             [ClickCamera; CameraAnswers (Fulfilled [7; 8]); Commit; Flush;
              Commit; Flush] in
  stream c = None /\ shown c = None.
Proof.
  apply (camera_quiescent_off
           [ClickCamera; CameraAnswers (Fulfilled [7; 8]); Commit; Flush;
            Commit; Flush]); reflexivity.
Defined.

Lemma settle_off (c : Camera) :
  (forall s, stream c = Some s -> same_stream (effect c) (Some s) = false) ->
  quiescent (settle c) = true
  /\ stream (settle c) = None /\ shown (settle c) = None
  /\ (forall t, t ∈ stream_tracks (stream c) -> t ∈ stopped (settle c))
  /\ handed (settle c) = handed c.
Proof.
  destruct c as [state_stream rendered dep src halted given log asked next live].
  cbn [stream effect]. intros Hfresh.
  destruct state_stream as [s|].
  - specialize (Hfresh s eq_refl).
    unfold settle, flush, commit. cbn [stream shown effect]. rewrite Hfresh.
    cbn [stopCamera stream shown effect same_stream].
    cbn. repeat split.
    intros t Ht. apply elem_of_app. by right.
  - destruct dep as [e|].
    + unfold settle, flush, commit. cbn. repeat split.
      intros t Ht. by apply elem_of_nil in Ht.
    + unfold settle, flush, commit. cbn. repeat split.
      intros t Ht. by apply elem_of_nil in Ht.
Qed.

(** X21: React is done after two rounds of render and effect, and the camera
    is off then.  From any state of a mounted [CameraCapture], two rounds
    leave nothing to do, no stream in the state, the camera button on show,
    and every track of the stream the state held stopped; [onCapture] is not
    called on the way. *)
Theorem camera_settles (evs : list CameraEvent) :
  let c := camera_run camera_mounted evs in
  mounted c = true ->
  let c' := settle c in
  quiescent c' = true
  /\ stream c' = None /\ shown c' = None
  /\ (forall t, t ∈ stream_tracks (stream c) -> t ∈ stopped c')
  /\ handed c' = handed c.
Proof.
  intros c Hmounted c'.
  destruct (camera_ok_run evs camera_mounted camera_ok_mounted)
    as (_ & _ & _ & Hfresh). fold c in Hfresh.
  apply settle_off. by apply Hfresh.
Qed.

Lemma camera_settles_witness :
  let c := camera_run camera_mounted
             [ClickCamera; CameraAnswers (Fulfilled [7; 8])] in
  let c' := settle c in
  quiescent c' = true
  /\ stream c' = None /\ shown c' = None
  /\ (forall t, t ∈ stream_tracks (stream c) -> t ∈ stopped c')
  /\ handed c' = handed c.
Proof.
  apply (camera_settles [ClickCamera; CameraAnswers (Fulfilled [7; 8])]).
  reflexivity.
Defined.

Lemma camera_step_unmounted (c : Camera) (ev : CameraEvent) :
  mounted c = false ->
  let c' := camera_step c ev in
  mounted c' = false /\ stopped c' = stopped c /\ handed c' = handed c
  /\ stream c' = stream c.
Proof.
  intros Hgone. unfold camera_step. rewrite Hgone. simpl.
  destruct ev as [|answer|context dataUrl| | | |]; try done.
  destruct (0 <? requested c)%nat; [|done].
  destruct answer as [ts|e|]; simpl; by rewrite ?Hgone.
Qed.

(** X22: a camera granted too late is never released.  Once
    [CameraCapture] is unmounted - the page has left [idle] - an answer of
    [getUserMedia] to a request made before still arrives in [startCamera],
    but nothing holds the stream: whatever follows, no track is stopped, and
    [onCapture] is not called. *)
Theorem camera_granted_after_unmount
    (c : Camera) (ts : list nat) (evs : list CameraEvent) :
  mounted c = false ->
  let c' := camera_run c (CameraAnswers (Fulfilled ts) :: evs) in
  mounted c' = false
  /\ stopped c' = stopped c
  /\ handed c' = handed c
  /\ (forall t, t ∈ ts -> t ∉ stopped c -> t ∉ stopped c').
Proof.
  intros Hgone c'.
  assert (forall evs c0,
            mounted c0 = false ->
            mounted (camera_run c0 evs) = false
            /\ stopped (camera_run c0 evs) = stopped c0
            /\ handed (camera_run c0 evs) = handed c0) as Hrun.
  { clear. induction evs as [|ev evs IH]; intros c0 Hgone; [done|].
    destruct (camera_step_unmounted c0 ev Hgone) as (Hgone' & Hstopped & Hhanded & _).
    simpl. destruct (IH _ Hgone') as (-> & -> & ->). done. }
  destruct (Hrun (CameraAnswers (Fulfilled ts) :: evs) c Hgone)
    as (Hgone' & Hstopped & Hhanded).
  fold c' in Hgone', Hstopped, Hhanded.
  repeat split; try done. intros t _ Hlive. by rewrite Hstopped.
Qed.

Lemma camera_granted_after_unmount_witness :
  let c := camera_run camera_mounted [ClickCamera; Unmount] in
  let c' := camera_run c [CameraAnswers (Fulfilled [7; 8]); Commit; Flush;
                          ClickCancel; Unmount] in
  mounted c' = false
  /\ stopped c' = stopped c
  /\ handed c' = handed c
  /\ (forall t, t ∈ [7; 8] -> t ∉ stopped c -> t ∉ stopped c').
Proof.
  apply (camera_granted_after_unmount
           (camera_run camera_mounted [ClickCamera; Unmount]) [7; 8]
           [Commit; Flush; ClickCancel; Unmount]).
  reflexivity.
Defined.
